(** * Row generation: a shallow embedding of [generator.py]

    The program turns a field boundary polygon and a reference line (the
    "AB line") into parallel rows clipped to the boundary, with one
    destination point per row and optional turn geometries at row ends.

    Conventions of the embedding.
    - A finite Python [float] is the rational number it denotes ([Q]).
      Every arithmetic operation the program performs on floats rounds its
      exact result: [fl q] is the float the operation returns when its exact
      result is [q] (interface [FloatArith]).  The general theorems hold for
      every rounding that is monotone and keeps the integers up to 2^53, as
      binary64 does; [Binary64] is that rounding, and the exact arithmetic
      ([fl q = q]) is the one the examples compute with.  Infinities and NaN
      are no values of the model.
    - shapely, pyproj and [math] are not part of the repository: what the
      program needs of them is the interface [GeoLib].  Every general
      theorem holds for all implementations of the interface; the module
      [ExactPlane] gives one that computes, for examples.  It is a stand-in:
      its projection is linear and its numbers are exact, so what it
      computes on an input is not what pyproj and GEOS compute there.
    - Text is ASCII: [upper] and [ord] are Python's on ASCII text only.
    - A Python exception is a value [Raise e]; the wall clock and the
      random UUID source are the record [World]. *)

From Stdlib Require Import ZArith QArith Qround Qabs Qpower List String.
From Stdlib Require Import Ascii Bool Lia.
From Stdlib Require Import DecimalString DecimalZ Sorted Permutation Lqa.
From Corelib Require Import PrimFloat FloatOps SpecFloat.
Import ListNotations.

Set Warnings "-register-all".
Open Scope string_scope.
Open Scope list_scope.
Open Scope Z_scope.

(** ** Exceptions and the effect monad *)

Inductive exn : Set :=
| ZeroDivisionError
| IndexError
| TypeError
| ValueError
| NotImplementedError
| GeometryTypeError
| GEOSException.

Inductive result (A : Type) : Type :=
| Ok (a : A)
| Raise (e : exn).
Arguments Ok {A} a.
Arguments Raise {A} e.

(** What one invocation reads from outside its arguments: the formatted
    clock reading of line 299 and the successive values of
    [str(uuid.uuid4())]. *)
Record World : Type := mkWorld {
  utcnow : string;
  uuid4 : nat -> string
}.

(** A computation may raise, and counts the UUIDs drawn so far. *)
Definition M (A : Type) : Type := nat -> result (A * nat).

Definition ret {A} (a : A) : M A := fun k => Ok (a, k).

Definition bind {A B} (m : M A) (f : A -> M B) : M B :=
  fun k => match m k with
           | Ok (a, k') => f a k'
           | Raise e => Raise e
           end.

Definition lift {A} (r : result A) : M A :=
  fun k => match r with
           | Ok a => Ok (a, k)
           | Raise e => Raise e
           end.

Definition fresh_uuid (w : World) : M string :=
  fun k => Ok (uuid4 w k, S k).

Declare Scope py_scope.
Delimit Scope py_scope with py.
Notation "x <- m ;; f" := (bind m (fun x => f))
  (at level 61, m at next level, right associativity) : py_scope.
Notation "' p <- m ;; f" := (bind m (fun p => f))
  (at level 61, p pattern, m at next level, right associativity) : py_scope.

Definition rbind {A B} (r : result A) (f : A -> result B) : result B :=
  match r with
  | Ok a => f a
  | Raise e => Raise e
  end.

(** A loop [for x in xs: acc = body(acc, x)] whose body may raise. *)
Fixpoint for_each {A S} (body : S -> A -> M S) (xs : list A) (acc : S) : M S :=
  match xs with
  | [] => ret acc
  | x :: xs' => bind (body acc x) (fun acc' => for_each body xs' acc')
  end.

(** ** Numbers *)

Definition Qlt_bool (a b : Q) : bool := negb (Qle_bool b a).

(** [int(x)] on a float truncates toward zero. *)
Definition Qtruncate (q : Q) : Z := Z.quot (Qnum q) (Zpos (Qden q)).

(** [range(a, b)]. *)
Definition range (a b : Z) : list Z :=
  map (fun k => a + Z.of_nat k) (seq 0 (Z.to_nat (b - a))).

(** Global tolerance for geometric operations, [SNAP_TOLERANCE = 0.01]. *)
Definition SNAP_TOLERANCE : Q := 1 # 100.

(** The rounding of float arithmetic: an operation whose exact result is
    [q] returns the float [fl q].  [x + y] in the program is
    [fl (x + y)] in the model, and so for [-], [*] and [/]; negation and
    the comparisons are exact. *)
Class FloatArith : Type := {
  fl : Q -> Q
}.

(** What the theorems that reason about sizes need of the rounding: it is
    monotone and it keeps the integers a float holds exactly. *)
Class FloatLaws (F : FloatArith) : Prop := {
  fl_le : forall x y : Q, (x <= y)%Q -> (fl x <= fl y)%Q;
  fl_int : forall n : Z, (Z.abs n <= 2 ^ 53)%Z -> (fl (inject_Z n) == inject_Z n)%Q
}.

(** ** Strings *)

Definition upper_ascii (c : ascii) : ascii :=
  let n := nat_of_ascii c in
  if (Nat.leb 97 n && Nat.leb n 122)%bool then ascii_of_nat (n - 32) else c.

(** Whether a text is ASCII. *)
Definition ascii_text (s : string) : bool :=
  forallb (fun c => Nat.ltb (nat_of_ascii c) 128) (list_ascii_of_string s).

(** [s.upper()], on ASCII text. *)
Fixpoint upper (s : string) : string :=
  match s with
  | EmptyString => EmptyString
  | String c s' => String (upper_ascii c) (upper s')
  end.

(** [ord(s)], on ASCII text: defined on strings of length one only. *)
Definition ord (s : string) : result Z :=
  match s with
  | String c EmptyString => Ok (Z.of_nat (nat_of_ascii c))
  | _ => Raise TypeError
  end.

(** [chr(n)], for the code points the program produces (65..90). *)
Definition chr (n : Z) : string :=
  String (ascii_of_nat (Z.to_nat n)) EmptyString.

(** [str(n)] for an integer. *)
Definition str (n : Z) : string := NilZero.string_of_int (Z.to_int n).

(** [f"{n:02d}"]: zero padding to width two, the sign counted in the width. *)
Definition format_02d (n : Z) : string :=
  if ((0 <=? n)%Z && (n <? 10)%Z)%bool then ("0" ++ str n)%string else str n.

(** [_label_sequence], lines 75-91. *)
Definition _label_sequence (start_letter : string) (start_num index : Z)
    (zero_pad keep_start_letter : bool) : result string :=
  rbind (if keep_start_letter then Ok (upper start_letter)
         else rbind (ord (upper start_letter)) (fun letter_ord =>
              Ok (chr (((letter_ord - 65) + index) mod 26 + 65))))
    (fun letter =>
       let num := start_num + index in
       let num_s := if zero_pad then format_02d num else str num in
       Ok (letter ++ num_s)%string).

(** ** Geometry *)

Definition Coord : Type := (Q * Q)%type.

(** The shapely geometry kinds the program dispatches on ([geom_type]). *)
Inductive geom : Type :=
| Point (c : Coord)
| LineString (cs : list Coord)
| Polygon (exterior : list Coord) (interiors : list (list Coord))
| MultiPoint (cs : list Coord)
| MultiLineString (ls : list (list Coord))
| GeometryCollection (gs : list geom).

(** A coordinate-wise map, the action of [shapely.ops.transform] and of the
    affine operations of [shapely.affinity]: kind, order and number of
    coordinates are kept. *)
Fixpoint map_geom (f : Coord -> Coord) (g : geom) : geom :=
  match g with
  | Point c => Point (f c)
  | LineString cs => LineString (map f cs)
  | Polygon ext ints => Polygon (map f ext) (map (map f) ints)
  | MultiPoint cs => MultiPoint (map f cs)
  | MultiLineString ls => MultiLineString (map (map f) ls)
  | GeometryCollection gs => GeometryCollection (map (map_geom f) gs)
  end.

Fixpoint all_coords (g : geom) : list Coord :=
  match g with
  | Point c => [c]
  | LineString cs => cs
  | Polygon ext ints => ext ++ List.concat ints
  | MultiPoint cs => cs
  | MultiLineString ls => List.concat ls
  | GeometryCollection gs => flat_map all_coords gs
  end.

(** [g.is_empty]. *)
Definition is_empty (g : geom) : bool :=
  match all_coords g with [] => true | _ => false end.

(** [g.coords]: only points and line strings have a coordinate sequence. *)
Definition coords (g : geom) : result (list Coord) :=
  match g with
  | Point c => Ok [c]
  | LineString cs => Ok cs
  | _ => Raise NotImplementedError
  end.

Definition is_LineString (g : geom) : bool :=
  match g with LineString _ => true | _ => false end.

(** [l[0]] and [l[-1]]. *)
Definition first_item {A} (l : list A) : result A :=
  match l with
  | [] => Raise IndexError
  | x :: _ => Ok x
  end.

Definition last_item {A} (l : list A) : result A := first_item (rev l).

Definition Qmin2 (a b : Q) : Q := if Qle_bool a b then a else b.
Definition Qmax2 (a b : Q) : Q := if Qle_bool a b then b else a.

(** [g.bounds] as [(minx, miny, maxx, maxy)]; an empty geometry has none
    (shapely answers NaN there, and [math.ceil] then raises). *)
Definition bounds (g : geom) : option (Q * Q * Q * Q) :=
  match all_coords g with
  | [] => None
  | (x, y) :: cs =>
      Some (fold_left (fun b c => let '(x0, y0, x1, y1) := b in
                                  (Qmin2 x0 (fst c), Qmin2 y0 (snd c),
                                   Qmax2 x1 (fst c), Qmax2 y1 (snd c)))
                      cs (x, y, x, y))
  end.

(** [shapely.affinity.translate] and [shapely.affinity.scale] about the
    origin [(0, 0)]. *)
Definition translate (g : geom) (xoff yoff : Q) : geom :=
  map_geom (fun c => (fst c + xoff, snd c + yoff)%Q) g.

Definition scale (g : geom) (xfact yfact : Q) : geom :=
  map_geom (fun c => (xfact * fst c, yfact * snd c)%Q) g.

(** ** The libraries the program calls *)

Class GeoLib : Type := {
  (** Python's float arithmetic. *)
  geo_float :: FloatArith;
  geo_float_laws :: FloatLaws geo_float;
  (** Whether [shapely.geometry.shape] accepts the coordinates of a GeoJSON
      geometry (it refuses a line of one coordinate, for one). *)
  sh_valid : geom -> bool;
  (** [math.atan2(y, x)] and [math.degrees]. *)
  math_atan2 : Q -> Q -> Q;
  math_degrees : Q -> Q;
  (** [shapely.affinity.rotate(_, angle, origin, use_radians=False)] on one
      coordinate: [sh_rotate angle origin c]. *)
  sh_rotate : Q -> Coord -> Coord -> Coord;
  (** [pyproj.Transformer.from_crs(src, dst, always_xy=True).transform]. *)
  pj_transform : string -> string -> Coord -> Coord;
  (** [g.centroid] (its value on an empty geometry is never looked at). *)
  sh_centroid : geom -> Coord;
  (** [line.intersection(area)], [g.length], [p.distance(q)]. *)
  sh_intersection : geom -> geom -> geom;
  sh_length : geom -> Q;
  sh_distance : Coord -> Coord -> Q
}.

(** ** Inputs and outputs *)

(** A turn template as it is handed over: [None] is Python's [None]. *)
Inductive turn_json : Type :=
| TEmpty                                          (* the empty object, falsy *)
| TFeatureCollection (features : list (option geom))
| TFeature (geometry : option geom)
| TGeometry (g : option geom).

Record Args : Type := mkArgs {
  area_feature : geom;
  ab_feature : geom;
  spacing_m : Q;
  start_letter : string;
  start_num : Z;
  zero_pad : bool;
  dual_zone : bool;
  dest_side : string;
  custom_turn_geojson : option turn_json;
  keep_start_letter : bool;
  attach_turns_both_ends : bool;
  flip_start_horizontal : bool;
  flip_start_vertical : bool;
  flip_end_horizontal : bool;
  flip_end_vertical : bool;
  secondary_turn_geojson : option turn_json;
  turn_side_a : string;
  turn_side_b : string;
  rotation_offset_a : Q;
  rotation_offset_b : Q
}.

Inductive properties : Type :=
| NetworkPath (createDate updateDate : string) (version : Z)
    (direction speedLimit : string) (enabled : bool)
| NetworkDestination (groupMpath createDate updateDate : string) (version : Z)
    (name groupId : string).

(** A GeoJSON feature; [mapping(g)] keeps kind and coordinates of [g]. *)
Record Feature : Type := mkFeature {
  f_id : string;
  f_properties : properties;
  f_geometry : geom
}.

Record FeatureCollection : Type := mkFeatureCollection {
  features : list Feature
}.

Definition is_path (f : Feature) : bool :=
  match f_properties f with NetworkPath _ _ _ _ _ _ => true | _ => false end.

Definition is_destination (f : Feature) : bool :=
  match f_properties f with NetworkDestination _ _ _ _ _ _ => true | _ => false end.

Definition dest_name (f : Feature) : option string :=
  match f_properties f with
  | NetworkDestination _ _ _ _ n _ => Some n
  | _ => None
  end.

(** ** [generate_rows_geojson], up to the row candidates *)

(** The local variables of [generate_rows_geojson] that are fixed before
    the rows are generated (lines 179-215 and 260-261). *)
Record Frame : Type := mkFrame {
  center_lon : Q;
  center_lat : Q;
  ax : Q;
  ay : Q;
  bx : Q;
  by_ : Q;
  angle_deg : Q;
  rotation_origin : Coord;
  area_rot : geom;
  ab_rot : geom;
  ab_rot_coords : list Coord;
  reference_y : Q;
  minx : Q;
  miny : Q;
  maxx : Q;
  maxy : Q;
  pad : Q;
  rows_below : Z;
  rows_above : Z;
  a_rot : Coord;
  b_rot : Coord
}.

(** The prepared turn templates (lines 291-295). *)
Record Templates : Type := mkTemplates {
  custom_m_template : option geom;
  custom_anchor_m : option Coord;
  secondary_m_template : option geom;
  secondary_anchor_m : option Coord
}.

(** [clipped_rows.sort(key=lambda x: x[0])]: a stable sort on the index. *)
Fixpoint insert_row (x : Z * geom) (l : list (Z * geom)) : list (Z * geom) :=
  match l with
  | [] => [x]
  | y :: l' => if (fst x <=? fst y)%Z then x :: l else y :: insert_row x l'
  end.

Fixpoint sort_rows (l : list (Z * geom)) : list (Z * geom) :=
  match l with
  | [] => []
  | x :: l' => insert_row x (sort_rows l')
  end.

Section Arithmetic.

Context {F : FloatArith}.
Local Open Scope Q_scope.

(** Line 16 of [_get_utm_crs]: the zone number. *)
Definition utm_zone (lon : Q) : Z := (Qtruncate (fl (fl (lon + 180) / 6)) + 1)%Z.

(** [_get_utm_crs], lines 14-18. *)
Definition _get_utm_crs (lon lat : Q) : string :=
  let utm_zone := utm_zone lon in
  let north := Qle_bool 0 lat in
  ("EPSG:" ++ str (if north then 32600 + utm_zone else 32700 + utm_zone)%Z)%string.

(** Line 220: the height of the candidate of index [i]. *)
Definition y_pos (reference_y spacing_m : Q) (i : Z) : Q :=
  fl (reference_y + fl (inject_Z i * spacing_m)).

End Arithmetic.

(** Lines 345-353: whether the first endpoint is the destination, and the
    endpoint chosen, from the distances of the two endpoints to A. *)
Definition use_start (dest_side : string) (dist1_to_a dist2_to_a : Q) : bool :=
  if String.eqb (upper dest_side) "A"
  then Qlt_bool dist1_to_a dist2_to_a
  else Qlt_bool dist2_to_a dist1_to_a.

Definition dest_pt_rot (dest_side : string) (dist1_to_a dist2_to_a : Q)
    (p1_rot p2_rot : Coord) : Coord :=
  if String.eqb (upper dest_side) "A"
  then (if Qlt_bool dist1_to_a dist2_to_a then p1_rot else p2_rot)
  else (if Qlt_bool dist2_to_a dist1_to_a then p1_rot else p2_rot).

Section Generator.

Context {L : GeoLib}.
Local Open Scope Q_scope.

(** [shape(ob)]: [None] stands for an object [shape] cannot read. *)
Definition shape (ob : option geom) : result geom :=
  match ob with
  | Some g => if sh_valid g then Ok g else Raise GEOSException
  | None => Raise GeometryTypeError
  end.

(** [_to_utm] and [_from_utm], lines 21-32. *)
Definition _to_utm (g : geom) (lon lat : Q) : geom :=
  map_geom (pj_transform "EPSG:4326" (_get_utm_crs lon lat)) g.

Definition _from_utm (g : geom) (lon lat : Q) : geom :=
  map_geom (pj_transform (_get_utm_crs lon lat) "EPSG:4326") g.

(** [_rotate], lines 35-36. *)
Definition _rotate (g : geom) (angle : Q) (origin : Coord) : geom :=
  map_geom (sh_rotate angle origin) g.

(** [_attach_custom_turn], lines 94-124. *)
Definition _attach_custom_turn (template_geom : geom)
    (template_anchor dest_point : Coord) (angle : Q)
    (flip_horizontal flip_vertical : bool) : geom :=
  let centered :=
    translate template_geom (- fst template_anchor) (- snd template_anchor) in
  let flipped := centered in
  let flipped := if flip_horizontal then scale flipped (-1) 1 else flipped in
  let flipped := if flip_vertical then scale flipped 1 (-1) else flipped in
  let rotated := _rotate flipped angle (0, 0) in
  translate rotated (fst dest_point) (snd dest_point).

(** Lines 179-215: projection, alignment, reference row and row counts. *)
Definition frame (a : Args) : result Frame :=
  rbind (shape (Some (area_feature a))) (fun area_geom =>
  rbind (shape (Some (ab_feature a))) (fun ab_geom =>
  (* the centroid of an empty line is an empty point, which has no [x] *)
  if is_empty ab_geom then Raise GEOSException else
  let centroid := sh_centroid ab_geom in
  let center_lon := fst centroid in
  let center_lat := snd centroid in
  let area_m := _to_utm area_geom center_lon center_lat in
  let ab_m := _to_utm ab_geom center_lon center_lat in
  rbind (coords ab_m) (fun ab_m_coords =>
  rbind (first_item ab_m_coords) (fun A =>
  rbind (last_item ab_m_coords) (fun B =>
  let ax := fst A in
  let ay := snd A in
  let bx := fst B in
  let by_ := snd B in
  let angle_rad := math_atan2 (fl (by_ - ay)) (fl (bx - ax)) in
  let angle_deg := math_degrees angle_rad in
  let rotation_origin := (ax, ay) in
  let area_rot := _rotate area_m (- angle_deg) rotation_origin in
  let ab_rot := _rotate ab_m (- angle_deg) rotation_origin in
  rbind (coords ab_rot) (fun ab_rot_coords =>
  rbind (first_item ab_rot_coords) (fun c0 =>
  rbind (last_item ab_rot_coords) (fun c1 =>
  let reference_y := fl (fl (snd c0 + snd c1) / 2) in
  if Qeq_bool (spacing_m a) 0 then Raise ZeroDivisionError else
  match bounds area_rot with
  | None => Raise ValueError
  | Some (minx, miny, maxx, maxy) =>
      let pad := fl (fl (maxx - minx) * 2) in
      let rows_below :=
        (Qceiling (fl (fl (reference_y - miny) / spacing_m a)) + 2)%Z in
      let rows_above :=
        (Qceiling (fl (fl (maxy - reference_y) / spacing_m a)) + 2)%Z in
      Ok {| center_lon := center_lon; center_lat := center_lat;
            ax := ax; ay := ay; bx := bx; by_ := by_;
            angle_deg := angle_deg; rotation_origin := rotation_origin;
            area_rot := area_rot; ab_rot := ab_rot;
            ab_rot_coords := ab_rot_coords; reference_y := reference_y;
            minx := minx; miny := miny; maxx := maxx; maxy := maxy;
            pad := pad; rows_below := rows_below; rows_above := rows_above;
            a_rot := c0; b_rot := c1 |}
  end)))))))).

(** Lines 218-222: one horizontal candidate per index. *)
Definition row_lines_with_index (a : Args) (fr : Frame) : list (Z * geom) :=
  map (fun i =>
         let y_pos := y_pos (reference_y fr) (spacing_m a) i in
         (i, LineString [(fl (minx fr - pad fr), y_pos);
                         (fl (maxx fr + pad fr), y_pos)]))
      (range (- rows_below fr) (rows_above fr + 1)).

(** Lines 227-250: what one candidate contributes to [clipped_rows]. *)
Definition clip_row (fr : Frame) (row : Z * geom) : list (Z * geom) :=
  let '(row_index, line) := row in
  if (row_index =? 0)%Z then [(row_index, ab_rot fr)]
  else
    let intersection := sh_intersection line (area_rot fr) in
    if is_empty intersection then []
    else match intersection with
         | LineString _ =>
             if Qlt_bool SNAP_TOLERANCE (sh_length intersection)
             then [(row_index, intersection)] else []
         | MultiLineString geoms =>
             map (pair row_index)
               (filter (fun segment => Qlt_bool SNAP_TOLERANCE (sh_length segment))
                       (map LineString geoms))
         | GeometryCollection geoms =>
             map (pair row_index)
               (filter (fun g => is_LineString g
                                 && Qlt_bool SNAP_TOLERANCE (sh_length g))
                       geoms)
         | _ => []
         end.

(** Lines 225-253. *)
Definition clipped_rows (a : Args) (fr : Frame) : list (Z * geom) :=
  sort_rows (flat_map (clip_row fr) (row_lines_with_index a fr)).

(** [prepare_turn_template], lines 264-289. *)
Definition prepare_turn_template (center_lon center_lat : Q)
    (turn_geojson : option turn_json) : result (option geom * option Coord) :=
  let prepared (r : result geom) :=
    rbind r (fun geom =>
    rbind (match geom with
           | Point c => Ok c
           | LineString cs => first_item cs
           | Polygon exterior _ => first_item exterior
           | _ => Ok (sh_centroid geom)
           end) (fun anchor =>
    let template_m := _to_utm geom center_lon center_lat in
    let anchor_m :=
      pj_transform "EPSG:4326" (_get_utm_crs center_lon center_lat) anchor in
    Ok (Some template_m, Some anchor_m))) in
  match turn_geojson with
  | None => Ok (None, None)
  | Some TEmpty => Ok (None, None)
  | Some (TFeatureCollection fs) => prepared (rbind (first_item fs) shape)
  | Some (TFeature g) => prepared (shape g)
  | Some (TGeometry g) => prepared (shape g)
  end.

(** ** The loop over the clipped rows, lines 302-462 *)

(** Lines 304-311: the segment after orientation. *)
Definition orient (fr : Frame) (seg : geom) : result geom :=
  rbind (coords seg) (fun seg_coords =>
  rbind (first_item seg_coords) (fun c0 =>
  rbind (last_item seg_coords) (fun c1 =>
  let seg_start_x := fst c0 in
  let seg_end_x := fst c1 in
  if (Qlt_bool (ax fr) (bx fr) && Qlt_bool seg_end_x seg_start_x)
     || (Qlt_bool (bx fr) (ax fr) && Qlt_bool seg_start_x seg_end_x)
  then Ok (LineString (rev seg_coords))
  else Ok seg))).

(** Lines 313-319. *)
Definition row_label (a : Args) (row_index : Z) : result string :=
  if dual_zone a then
    rbind (_label_sequence (start_letter a) (start_num a) row_index
             (zero_pad a) (keep_start_letter a)) (fun label1 =>
    rbind (_label_sequence (start_letter a) (start_num a) (row_index + 1)
             (zero_pad a) (keep_start_letter a)) (fun label2 =>
    Ok (label1 ++ "/" ++ label2)%string))
  else _label_sequence (start_letter a) (start_num a) row_index
         (zero_pad a) (keep_start_letter a).

(** Lines 321-323: unrotate and project to WGS84. *)
Definition transform_back (fr : Frame) (seg : geom) : geom :=
  _from_utm (_rotate seg (angle_deg fr) (rotation_origin fr))
            (center_lon fr) (center_lat fr).

Definition path_feature (id current_time : string) (g : geom) : Feature :=
  {| f_id := id;
     f_properties := NetworkPath current_time current_time 1 "two_way" "1.2" true;
     f_geometry := g |}.

Definition dest_feature (id current_time label : string) (g : geom) : Feature :=
  {| f_id := id;
     f_properties := NetworkDestination "" current_time current_time 1 label "";
     f_geometry := g |}.

Definition or_else {A} (x y : option A) : option A :=
  match x with Some _ => x | None => y end.

Definition is_some {A} (x : option A) : bool :=
  match x with Some _ => true | None => false end.

(** Line 386: the direction of the row in the unrotated metric frame. *)
Definition row_angle (u0 u1 : Coord) : Q :=
  let seg_dx := fl (fst u1 - fst u0) in
  let seg_dy := fl (snd u1 - snd u0) in
  math_degrees (math_atan2 seg_dy seg_dx).

(** The anchor handed to [_attach_custom_turn] with the template
    [template_m].  A template that is a point, a line or a polygon is
    anchored at its first coordinate; the anchor of any other template is
    its centroid, and the centroid of an empty geometry is an empty point:
    reading its [x] on line 109 raises. *)
Definition anchor_point (template_m : geom) (anchor_m : Coord) : result Coord :=
  if is_empty template_m then Raise GEOSException else Ok anchor_m.

(** Lines 389-409: the turn geometry at the A end, when one is attached. *)
Definition turn_a_geom (a : Args) (fr : Frame) (tp : Templates)
    (p1_rot p2_rot : Coord) (row_angle_deg : Q) : result (option geom) :=
  let dist1_to_a := sh_distance p1_rot (a_rot fr) in
  let dist2_to_a := sh_distance p2_rot (a_rot fr) in
  if String.eqb (upper (turn_side_a a)) "A" then
    let a_template := or_else (custom_m_template tp) (secondary_m_template tp) in
    let a_anchor := or_else (custom_anchor_m tp) (secondary_anchor_m tp) in
    match a_template, a_anchor with
    | Some a_template, Some a_anchor =>
        let turn_a_pt_rot :=
          if Qlt_bool dist1_to_a dist2_to_a then p1_rot else p2_rot in
        let turn_a_unrot :=
          sh_rotate (angle_deg fr) (rotation_origin fr) turn_a_pt_rot in
        let turn_a_angle := fl (row_angle_deg + rotation_offset_a a) in
        rbind (anchor_point a_template a_anchor) (fun a_anchor =>
        let attached_a :=
          _attach_custom_turn a_template a_anchor turn_a_unrot turn_a_angle
            (flip_start_horizontal a) (flip_start_vertical a) in
        Ok (Some (_from_utm attached_a (center_lon fr) (center_lat fr))))
    | _, _ => Ok None
    end
  else Ok None.

(** Lines 427-447: the turn geometry at the B end, when one is attached. *)
Definition turn_b_geom (a : Args) (fr : Frame) (tp : Templates)
    (p1_rot p2_rot : Coord) (row_angle_deg : Q) : result (option geom) :=
  let dist1_to_a := sh_distance p1_rot (a_rot fr) in
  let dist2_to_a := sh_distance p2_rot (a_rot fr) in
  if String.eqb (upper (turn_side_b a)) "B" then
    let b_template := or_else (secondary_m_template tp) (custom_m_template tp) in
    let b_anchor := or_else (secondary_anchor_m tp) (custom_anchor_m tp) in
    match b_template, b_anchor with
    | Some b_template, Some b_anchor =>
        let turn_b_pt_rot :=
          if Qlt_bool dist2_to_a dist1_to_a then p1_rot else p2_rot in
        let turn_b_unrot :=
          sh_rotate (angle_deg fr) (rotation_origin fr) turn_b_pt_rot in
        let turn_b_angle := fl (fl (row_angle_deg + 180) + rotation_offset_b a) in
        rbind (anchor_point b_template b_anchor) (fun b_anchor =>
        let attached_b :=
          _attach_custom_turn b_template b_anchor turn_b_unrot turn_b_angle
            (flip_end_horizontal a) (flip_end_vertical a) in
        Ok (Some (_from_utm attached_b (center_lon fr) (center_lat fr))))
    | _, _ => Ok None
    end
  else Ok None.

Local Open Scope py_scope.

(** One iteration: [acc] is the pair [(features, dest_features)]. *)
Definition loop_body (w : World) (a : Args) (fr : Frame) (tp : Templates)
    (current_time : string) (acc : list Feature * list Feature)
    (row : Z * geom) : M (list Feature * list Feature) :=
  let '(features, dest_features) := acc in
  let '(row_index, seg) := row in
  seg <- lift (orient fr seg) ;;
  seg_coords <- lift (coords seg) ;;
  label <- lift (row_label a row_index) ;;
  let seg_wgs := transform_back fr seg in
  id <- fresh_uuid w ;;
  let features := features ++ [path_feature id current_time seg_wgs] in
  p1_rot <- lift (first_item seg_coords) ;;
  p2_rot <- lift (last_item seg_coords) ;;
  let dist1_to_a := sh_distance p1_rot (a_rot fr) in
  let dist2_to_a := sh_distance p2_rot (a_rot fr) in
  let chosen := dest_pt_rot (dest_side a) dist1_to_a dist2_to_a p1_rot p2_rot in
  let dest_unrot := sh_rotate (angle_deg fr) (rotation_origin fr) chosen in
  let dest_wgs_temp :=
    pj_transform (_get_utm_crs (center_lon fr) (center_lat fr)) "EPSG:4326"
                 dest_unrot in
  seg_wgs_coords <- lift (coords seg_wgs) ;;
  dest_coord <- lift (if use_start (dest_side a) dist1_to_a dist2_to_a
                      then first_item seg_wgs_coords
                      else last_item seg_wgs_coords) ;;
  let dest_wgs := Point dest_coord in
  id <- fresh_uuid w ;;
  let dest_features :=
    dest_features ++ [dest_feature id current_time label dest_wgs] in
  let seg_unrot := _rotate seg (angle_deg fr) (rotation_origin fr) in
  seg_coords_unrot <- lift (coords seg_unrot) ;;
  u0 <- lift (first_item seg_coords_unrot) ;;
  u1 <- lift (last_item seg_coords_unrot) ;;
  let row_angle_deg := row_angle u0 u1 in
  turn_a <- lift (turn_a_geom a fr tp p1_rot p2_rot row_angle_deg) ;;
  features <-
    match turn_a with
    | Some attached_a_wgs =>
        id <- fresh_uuid w ;;
        ret (features ++ [path_feature id current_time attached_a_wgs])
    | None => ret features
    end ;;
  turn_b <- lift (turn_b_geom a fr tp p1_rot p2_rot row_angle_deg) ;;
  features <-
    match turn_b with
    | Some attached_b_wgs =>
        id <- fresh_uuid w ;;
        ret (features ++ [path_feature id current_time attached_b_wgs])
    | None => ret features
    end ;;
  ret (features, dest_features).

(** [generate_rows_geojson], lines 141-468. *)
Definition generate_rows_geojson (w : World) (a : Args) : result FeatureCollection :=
  rbind (frame a) (fun fr =>
  let rows := clipped_rows a fr in
  rbind (prepare_turn_template (center_lon fr) (center_lat fr)
           (custom_turn_geojson a)) (fun custom =>
  rbind (prepare_turn_template (center_lon fr) (center_lat fr)
           (secondary_turn_geojson a)) (fun secondary =>
  let tp := {| custom_m_template := fst custom;
               custom_anchor_m := snd custom;
               secondary_m_template := fst secondary;
               secondary_anchor_m := snd secondary |} in
  let current_time := utcnow w in
  match for_each (loop_body w a fr tp current_time) rows ([], []) 0%nat with
  | Ok ((features, dest_features), _) =>
      Ok {| features := features ++ dest_features |}
  | Raise e => Raise e
  end))).

(** ** The loop, row by row

    The loop body draws identifiers in between computations that may
    raise.  The definitions below separate the two: [row_plan] is what an
    iteration computes from its row, [emit_row] turns a plan into features
    with the identifiers drawn from position [k] on.  That the loop is the
    one after the other is a theorem ([for_each_rows]). *)

Record RowPlan : Type := mkRowPlan {
  rp_index : Z;
  rp_seg : geom;              (* the oriented segment, aligned frame *)
  rp_p1 : Coord;              (* its first endpoint [p1_rot] *)
  rp_p2 : Coord;              (* its last endpoint [p2_rot] *)
  rp_label : string;
  rp_path : geom;             (* [seg_wgs] *)
  rp_dest : Coord;            (* [dest_coord] *)
  rp_turn_a : option geom;
  rp_turn_b : option geom
}.

Definition row_plan (a : Args) (fr : Frame) (tp : Templates)
    (row : Z * geom) : result RowPlan :=
  rbind (orient fr (snd row)) (fun seg =>
  rbind (coords seg) (fun seg_coords =>
  rbind (row_label a (fst row)) (fun label =>
  let seg_wgs := transform_back fr seg in
  rbind (first_item seg_coords) (fun p1_rot =>
  rbind (last_item seg_coords) (fun p2_rot =>
  rbind (coords seg_wgs) (fun seg_wgs_coords =>
  rbind (if use_start (dest_side a) (sh_distance p1_rot (a_rot fr))
                        (sh_distance p2_rot (a_rot fr))
         then first_item seg_wgs_coords
         else last_item seg_wgs_coords) (fun dest_coord =>
  rbind (coords (_rotate seg (angle_deg fr) (rotation_origin fr)))
        (fun seg_coords_unrot =>
  rbind (first_item seg_coords_unrot) (fun u0 =>
  rbind (last_item seg_coords_unrot) (fun u1 =>
  rbind (turn_a_geom a fr tp p1_rot p2_rot (row_angle u0 u1)) (fun turn_a =>
  rbind (turn_b_geom a fr tp p1_rot p2_rot (row_angle u0 u1)) (fun turn_b =>
  Ok {| rp_index := fst row; rp_seg := seg;
        rp_p1 := p1_rot; rp_p2 := p2_rot; rp_label := label;
        rp_path := seg_wgs; rp_dest := dest_coord;
        rp_turn_a := turn_a; rp_turn_b := turn_b |})))))))))))).

Fixpoint plan_rows (a : Args) (fr : Frame) (tp : Templates)
    (rows : list (Z * geom)) : result (list RowPlan) :=
  match rows with
  | [] => Ok []
  | row :: rows' =>
      rbind (row_plan a fr tp row) (fun p =>
      rbind (plan_rows a fr tp rows') (fun ps => Ok (p :: ps)))
  end.

(** What one row contributes to the output. *)
Record RowOut : Type := mkRowOut {
  ro_plan : RowPlan;
  ro_path : Feature;
  ro_dest : Feature;
  ro_turns : list Feature
}.

Definition ro_index (o : RowOut) : Z := rp_index (ro_plan o).

Definition emit_row (w : World) (current_time : string) (k : nat)
    (p : RowPlan) : RowOut :=
  {| ro_plan := p;
     ro_path := path_feature (uuid4 w k) current_time (rp_path p);
     ro_dest := dest_feature (uuid4 w (S k)) current_time (rp_label p)
                  (Point (rp_dest p));
     ro_turns :=
       match rp_turn_a p, rp_turn_b p with
       | Some ga, Some gb =>
           [path_feature (uuid4 w (S (S k))) current_time ga;
            path_feature (uuid4 w (S (S (S k)))) current_time gb]
       | Some ga, None => [path_feature (uuid4 w (S (S k))) current_time ga]
       | None, Some gb => [path_feature (uuid4 w (S (S k))) current_time gb]
       | None, None => []
       end |}.

(** The number of identifiers a row draws. *)
Definition draws (p : RowPlan) : nat :=
  2 + (if is_some (rp_turn_a p) then 1 else 0)
    + (if is_some (rp_turn_b p) then 1 else 0).

Fixpoint emit_rows (w : World) (current_time : string) (k : nat)
    (ps : list RowPlan) : list RowOut :=
  match ps with
  | [] => []
  | p :: ps' =>
      emit_row w current_time k p :: emit_rows w current_time (k + draws p) ps'
  end.

Definition path_features (outs : list RowOut) : list Feature :=
  flat_map (fun o => ro_path o :: ro_turns o) outs.

Definition destination_features (outs : list RowOut) : list Feature :=
  map ro_dest outs.

Definition assemble (outs : list RowOut) : FeatureCollection :=
  {| features := path_features outs ++ destination_features outs |}.

Definition templates (a : Args) (fr : Frame) : result Templates :=
  rbind (prepare_turn_template (center_lon fr) (center_lat fr)
           (custom_turn_geojson a)) (fun custom =>
  rbind (prepare_turn_template (center_lon fr) (center_lat fr)
           (secondary_turn_geojson a)) (fun secondary =>
  Ok {| custom_m_template := fst custom;
        custom_anchor_m := snd custom;
        secondary_m_template := fst secondary;
        secondary_anchor_m := snd secondary |})).

(** The rows of one invocation, in output order. *)
Definition row_outputs (w : World) (a : Args) : result (list RowOut) :=
  rbind (frame a) (fun fr =>
  rbind (templates a fr) (fun tp =>
  rbind (plan_rows a fr tp (clipped_rows a fr)) (fun ps =>
  Ok (emit_rows w (utcnow w) 0 ps)))).

(** The inverse of the alignment on one coordinate. *)
Definition back_coord (fr : Frame) (c : Coord) : Coord :=
  pj_transform (_get_utm_crs (center_lon fr) (center_lat fr)) "EPSG:4326"
    (sh_rotate (angle_deg fr) (rotation_origin fr) c).

(** Whether the loop attaches a turn at the A end, at the B end. *)
Definition turn_a_attached (a : Args) (tp : Templates) : bool :=
  String.eqb (upper (turn_side_a a)) "A"
  && is_some (or_else (custom_m_template tp) (secondary_m_template tp))
  && is_some (or_else (custom_anchor_m tp) (secondary_anchor_m tp)).

Definition turn_b_attached (a : Args) (tp : Templates) : bool :=
  String.eqb (upper (turn_side_b a)) "B"
  && is_some (or_else (secondary_m_template tp) (custom_m_template tp))
  && is_some (or_else (secondary_anchor_m tp) (custom_anchor_m tp)).

End Generator.

(** ** An implementation of the library interface that computes

    Exact rational arithmetic on the plane.  Angles use the rational
    [PI = 355/113]; [atan2], [sin] and [cos] are rational approximations
    that are exact on the axes and diagonals, so a rotation by a multiple
    of 90 degrees is exact (shapely rounds its sine and cosine to that
    effect too).  Square roots are taken to six decimals.  The projection is
    a linear stand-in for the UTM map: one degree is 100 km on both axes.
    The clipper intersects a horizontal line with a polygon by scanning its
    edges.  All results are reduced fractions, and the program's own
    arithmetic is exact. *)
Module ExactPlane.

Local Open Scope Q_scope.

(** Exact arithmetic: nothing is rounded. *)
Definition exact : FloatArith := {| fl := fun q => q |}.

Definition exact_laws : FloatLaws exact.
Proof. split; [intros x y H; exact H | intros n _; reflexivity]. Qed.

(** What [shape] accepts, as shapely 2 does: a line has no or at least two
    coordinates, a ring none or at least four once it is closed. *)
Definition closed (ring : list Coord) : bool :=
  match ring, rev ring with
  | c :: _, d :: _ => Qeq_bool (fst c) (fst d) && Qeq_bool (snd c) (snd d)
  | _, _ => false
  end.

Definition ring_ok (ring : list Coord) : bool :=
  match ring with
  | [] => true
  | _ => (4 <=? List.length ring + (if closed ring then 0 else 1))%nat
  end.

Definition line_ok (cs : list Coord) : bool :=
  negb (Nat.eqb (List.length cs) 1).

Fixpoint valid (g : geom) : bool :=
  match g with
  | Point _ => true
  | LineString cs => line_ok cs
  | Polygon ext ints => ring_ok ext && forallb ring_ok ints
  | MultiPoint _ => true
  | MultiLineString ls => forallb line_ok ls
  | GeometryCollection gs => forallb valid gs
  end.

Definition PI : Q := 355 # 113.

Definition Qabs2 (q : Q) : Q := if Qle_bool 0 q then q else - q.

Definition atan_unit (t : Q) : Q := (PI / 4) * t + (273 # 1000) * t * (1 - t).

Definition atan2 (y x : Q) : Q :=
  let a := Qabs2 x in
  let b := Qabs2 y in
  let base := if Qle_bool b a then atan_unit (b / a)
              else PI / 2 - atan_unit (a / b) in
  let base := if Qlt_bool x 0 then PI - base else base in
  Qred (if Qlt_bool y 0 then - base else base).

Definition degrees (r : Q) : Q := Qred (r * 180 / PI).

(** Bhaskara's approximation of the sine of an angle in degrees. *)
Definition sin_deg (d : Q) : Q :=
  let r := d - 360 * inject_Z (Qfloor (d / 360)) in
  let half (x : Q) := 4 * x * (180 - x) / (40500 - x * (180 - x)) in
  if Qlt_bool r 180 then half r else - half (r - 180).

Definition cos_deg (d : Q) : Q := sin_deg (d + 90).

Definition rotate (angle : Q) (origin c : Coord) : Coord :=
  let cosp := cos_deg angle in
  let sinp := sin_deg angle in
  let '(x0, y0) := origin in
  let '(x, y) := c in
  (Qred (cosp * x - sinp * y + (x0 - x0 * cosp + y0 * sinp)),
   Qred (sinp * x + cosp * y + (y0 - x0 * sinp - y0 * cosp))).

Definition transform (src dst : string) (c : Coord) : Coord :=
  if String.eqb src "EPSG:4326"
  then (Qred (fst c * 100000), Qred (snd c * 100000))
  else if String.eqb dst "EPSG:4326"
       then (Qred (fst c / 100000), Qred (snd c / 100000))
       else c.

Definition qsqrt (q : Q) : Q :=
  Qred (Z.sqrt (Qnum q * Zpos (Qden q) * 1000000000000)
        # (Qden q * 1000000)).

Definition distance (p q : Coord) : Q :=
  qsqrt ((fst p - fst q) * (fst p - fst q) + (snd p - snd q) * (snd p - snd q)).

Fixpoint segments (cs : list Coord) : list (Coord * Coord) :=
  match cs with
  | p :: (q :: _) as tl => (p, q) :: segments tl
  | _ => []
  end.

Definition Qsum (l : list Q) : Q := fold_right Qplus 0 l.

Definition length (g : geom) : Q :=
  match g with
  | LineString cs => Qred (Qsum (map (fun s => distance (fst s) (snd s)) (segments cs)))
  | _ => 0
  end.

Definition mean (cs : list Coord) : Coord :=
  let n := inject_Z (Z.of_nat (List.length cs)) in
  (Qred (Qsum (map fst cs) / n), Qred (Qsum (map snd cs) / n)).

Definition centroid (g : geom) : Coord :=
  match g with
  | Point c => c
  | LineString cs =>
      let ss := segments cs in
      let total := Qsum (map (fun s => distance (fst s) (snd s)) ss) in
      if Qeq_bool total 0 then mean cs
      else
        (Qred (Qsum (map (fun s => distance (fst s) (snd s)
                                   * ((fst (fst s) + fst (snd s)) / 2)) ss) / total),
         Qred (Qsum (map (fun s => distance (fst s) (snd s)
                                   * ((snd (fst s) + snd (snd s)) / 2)) ss) / total))
  | _ => mean (all_coords g)
  end.

(** Where the horizontal line at height [y] crosses the edges of a ring. *)
Definition crossings (y : Q) (ring : list Coord) : list Q :=
  flat_map (fun s =>
              let '((px, py), (qx, qy)) := s in
              if (Qle_bool py y && Qlt_bool y qy) || (Qle_bool qy y && Qlt_bool y py)
              then [Qred (px + (y - py) * (qx - px) / (qy - py))]
              else [])
           (segments ring).

Fixpoint insert_Q (x : Q) (l : list Q) : list Q :=
  match l with
  | [] => [x]
  | y :: l' => if Qle_bool x y then x :: l else y :: insert_Q x l'
  end.

Definition sort_Q (l : list Q) : list Q := fold_right insert_Q [] l.

Fixpoint pairs (l : list Q) : list (Q * Q) :=
  match l with
  | a :: b :: l' => (a, b) :: pairs l'
  | _ => []
  end.

Definition close_ring (ring : list Coord) : list Coord :=
  match ring with
  | [] => []
  | c :: _ => ring ++ [c]
  end.

Definition intersection (line area : geom) : geom :=
  match line, area with
  | LineString [(x0, y); (x1, y')], Polygon ext ints =>
      if Qeq_bool y y' then
        let xs := sort_Q (flat_map (fun r => crossings y (close_ring r)) (ext :: ints)) in
        let spans :=
          filter (fun ab => Qlt_bool (fst ab) (snd ab))
            (map (fun ab => (Qmax2 (fst ab) (Qred x0), Qmin2 (snd ab) (Qred x1)))
                 (pairs xs)) in
        match spans with
        | [] => LineString []
        | [(a, b)] => LineString [(a, Qred y); (b, Qred y)]
        | _ => MultiLineString
                 (map (fun ab => [(fst ab, Qred y); (snd ab, Qred y)]) spans)
        end
      else GeometryCollection []
  | _, _ => GeometryCollection []
  end.

#[global] Instance lib : GeoLib := {|
  geo_float := exact;
  geo_float_laws := exact_laws;
  sh_valid := valid;
  math_atan2 := atan2;
  math_degrees := degrees;
  sh_rotate := rotate;
  pj_transform := transform;
  sh_centroid := centroid;
  sh_intersection := intersection;
  sh_length := length;
  sh_distance := distance
|}.

End ExactPlane.

(** ** Binary64 arithmetic

    Rounding to the nearest number with a significand of 53 bits, ties to
    the even significand: the rounding of IEEE 754 binary64, which is
    Python's [float].  The exponent is not bounded here: overflow and
    subnormal numbers are outside the model. *)
Module Binary64.

Local Open Scope Q_scope.

(** The integer nearest to [q], the even one of two that are equally near. *)
Definition nearest_even (q : Q) : Z :=
  let f := Qfloor q in
  match Qcompare (q - inject_Z f) (1 # 2) with
  | Lt => f
  | Gt => (f + 1)%Z
  | Eq => if Z.even f then f else (f + 1)%Z
  end.

(** The exponent [e] of a positive number [a]: [2^e <= a < 2^(e+1)]. *)
Definition exponent (a : Q) : Z :=
  let e := (Z.log2 (Qnum a) - Z.log2 (Zpos (Qden a)))%Z in
  if Qle_bool (Qpower 2 e) a then e else (e - 1)%Z.

(** The distance between neighbouring numbers of 53 bits around [a]. *)
Definition ulp (a : Q) : Q := Qpower 2 (exponent a - 52).

(** The number of 53 bits nearest to a positive [a]. *)
Definition nearest (a : Q) : Q := inject_Z (nearest_even (a / ulp a)) * ulp a.

Definition round (q : Q) : Q :=
  if Qeq_bool q 0 then 0
  else
    let m := nearest (Qabs q) in
    Qred (if Qle_bool 0 q then m else - m).

Definition arith : FloatArith := {| fl := round |}.

(** The rational number a float of the kernel denotes. *)
Definition Q_of_float (f : float) : option Q :=
  match Prim2SF f with
  | S754_zero _ => Some 0
  | S754_finite s m e =>
      Some (Qred ((if s then -1 else 1) * inject_Z (Zpos m) * Qpower 2 e))
  | _ => None
  end.

End Binary64.

(** ** Vocabulary of the statements *)

Definition with_attach_turns_both_ends (b : bool) (a : Args) : Args :=
  {| area_feature := area_feature a; ab_feature := ab_feature a;
     spacing_m := spacing_m a; start_letter := start_letter a;
     start_num := start_num a; zero_pad := zero_pad a;
     dual_zone := dual_zone a; dest_side := dest_side a;
     custom_turn_geojson := custom_turn_geojson a;
     keep_start_letter := keep_start_letter a;
     attach_turns_both_ends := b;
     flip_start_horizontal := flip_start_horizontal a;
     flip_start_vertical := flip_start_vertical a;
     flip_end_horizontal := flip_end_horizontal a;
     flip_end_vertical := flip_end_vertical a;
     secondary_turn_geojson := secondary_turn_geojson a;
     turn_side_a := turn_side_a a; turn_side_b := turn_side_b a;
     rotation_offset_a := rotation_offset_a a;
     rotation_offset_b := rotation_offset_b a |}.

Definition with_turn_templates (custom secondary : option turn_json)
    (a : Args) : Args :=
  {| area_feature := area_feature a; ab_feature := ab_feature a;
     spacing_m := spacing_m a; start_letter := start_letter a;
     start_num := start_num a; zero_pad := zero_pad a;
     dual_zone := dual_zone a; dest_side := dest_side a;
     custom_turn_geojson := custom;
     keep_start_letter := keep_start_letter a;
     attach_turns_both_ends := attach_turns_both_ends a;
     flip_start_horizontal := flip_start_horizontal a;
     flip_start_vertical := flip_start_vertical a;
     flip_end_horizontal := flip_end_horizontal a;
     flip_end_vertical := flip_end_vertical a;
     secondary_turn_geojson := secondary;
     turn_side_a := turn_side_a a; turn_side_b := turn_side_b a;
     rotation_offset_a := rotation_offset_a a;
     rotation_offset_b := rotation_offset_b a |}.

(** A feature with its identifier blanked. *)
Definition erase_id (f : Feature) : Feature :=
  {| f_id := ""; f_properties := f_properties f; f_geometry := f_geometry f |}.

Definition erase_ids (r : result FeatureCollection) : result (list Feature) :=
  match r with
  | Ok fc => Ok (map erase_id (features fc))
  | Raise e => Raise e
  end.

(** A supplied, non-empty template object from which [prepare_turn_template]
    cannot take a geometry with an anchor coordinate. *)
Definition no_geometry (g : option geom) : bool :=
  match g with
  | None => true
  | Some (LineString []) => true
  | Some (Polygon [] _) => true
  | Some _ => false
  end.

Definition unreadable (t : option turn_json) : bool :=
  match t with
  | Some (TFeatureCollection []) => true
  | Some (TFeatureCollection (g :: _)) => no_geometry g
  | Some (TFeature g) => no_geometry g
  | Some (TGeometry g) => no_geometry g
  | Some TEmpty => false
  | None => false
  end.

(** A template was handed over: neither [None] nor the empty object. *)
Definition supplied (t : option turn_json) : bool :=
  match t with
  | None => false
  | Some TEmpty => false
  | Some _ => true
  end.

Definition optional {A} (x : option A) : list A :=
  match x with Some v => [v] | None => [] end.





(** ** Sample inputs, in the exact plane *)
Module Samples.

Local Open Scope Q_scope.

Definition w0 : World :=
  {| utcnow := "2024-05-01T06:00:00.000Z";
     uuid4 := fun k => ("id-" ++ str (Z.of_nat k))%string |}.

Definition w1 : World :=
  {| utcnow := "2024-05-01T06:00:00.000Z";
     uuid4 := fun k => ("ID-" ++ str (Z.of_nat k))%string |}.

(** A square field of 100 m by 100 m. *)
Definition square : geom :=
  Polygon [(0, 0); (1 # 1000, 0); (1 # 1000, 1 # 1000); (0, 1 # 1000); (0, 0)] [].

(** The same field with a notch cut into its northern side, between
    x = 40 m and x = 60 m, down to y = 40 m. *)
Definition notched : geom :=
  Polygon [(0, 0); (1 # 1000, 0); (1 # 1000, 1 # 1000); (6 # 10000, 1 # 1000);
           (6 # 10000, 4 # 10000); (4 # 10000, 4 # 10000); (4 # 10000, 1 # 1000);
           (0, 1 # 1000); (0, 0)] [].

(** Reference lines at y = 35 m: eastward, westward, starting mid-field,
    and collapsed to a point. *)
Definition ab_east : geom := LineString [(2 # 10000, 35 # 100000); (8 # 10000, 35 # 100000)].
Definition ab_west : geom := LineString [(8 # 10000, 35 # 100000); (2 # 10000, 35 # 100000)].
Definition ab_mid : geom := LineString [(5 # 10000, 35 # 100000); (8 # 10000, 35 # 100000)].

Definition args (area ab : geom) : Args :=
  {| area_feature := area; ab_feature := ab; spacing_m := 10;
     start_letter := "F"; start_num := 1; zero_pad := true; dual_zone := false;
     dest_side := "A"; custom_turn_geojson := None; keep_start_letter := true;
     attach_turns_both_ends := false;
     flip_start_horizontal := false; flip_start_vertical := false;
     flip_end_horizontal := false; flip_end_vertical := false;
     secondary_turn_geojson := None; turn_side_a := "A"; turn_side_b := "B";
     rotation_offset_a := 0; rotation_offset_b := 0 |}.

(** A hook-shaped turn, anchored at its first coordinate. *)
Definition hook : turn_json :=
  TFeature (Some (LineString [(0, 0); (5 # 100000, 0); (5 # 100000, 5 # 100000)])).

Definition args_east : Args := args square ab_east.
Definition args_west : Args := args square ab_west.
Definition args_mid : Args := args square ab_mid.
Definition args_notched : Args := args notched ab_east.
Definition args_hook : Args := with_turn_templates (Some hook) None args_east.
Definition args_no_features : Args :=
  with_turn_templates (Some (TFeatureCollection [])) None args_east.

End Samples.

(** ** Further functions of [generator.py] and of its caller [app.py] *)

(** Linear referencing on a line, for [_snap_point_to_line]:
    [line.project(point)] and [line.interpolate(distance)]. *)
Class LinearRef : Type := {
  sh_project : geom -> Coord -> Q;
  sh_interpolate : geom -> Q -> Coord
}.

(** [_snap_point_to_line], lines 39-48. *)
Definition _snap_point_to_line {L : GeoLib} {R : LinearRef}
    (point : Coord) (line : geom) (tolerance : Q) : Coord :=
  let distance_along := sh_project line point in
  let snapped := sh_interpolate line distance_along in
  if Qle_bool (sh_distance point snapped) tolerance then snapped else point.

(** The loop of [_find_user_line_in_clipped] over
    [enumerate(clipped_lines)], from index [idx] on. *)
Fixpoint find_user_line_from {L : GeoLib} (user_centroid : Coord)
    (tolerance : Q) (idx : nat) (clipped_lines : list geom) : option nat :=
  match clipped_lines with
  | [] => None
  | line :: rest =>
      let line_centroid := sh_centroid line in
      let dist := sh_distance user_centroid line_centroid in
      if Qlt_bool dist tolerance then Some idx
      else find_user_line_from user_centroid tolerance (S idx) rest
  end.

(** [_find_user_line_in_clipped], lines 127-138. *)
Definition _find_user_line_in_clipped {L : GeoLib} (user_line_m_rot : geom)
    (clipped_lines : list geom) (tolerance : Q) : option nat :=
  let user_centroid := sh_centroid user_line_m_rot in
  find_user_line_from user_centroid tolerance 0 clipped_lines.

(** The ["type"] property and the GeoJSON geometry type of a feature. *)
Definition ptype (f : Feature) : string :=
  match f_properties f with
  | NetworkPath _ _ _ _ _ _ => "NetworkPath"
  | NetworkDestination _ _ _ _ _ _ => "NetworkDestination"
  end.

Definition geom_type (g : geom) : string :=
  match g with
  | Point _ => "Point"
  | LineString _ => "LineString"
  | Polygon _ _ => "Polygon"
  | MultiPoint _ => "MultiPoint"
  | MultiLineString _ => "MultiLineString"
  | GeometryCollection _ => "GeometryCollection"
  end.

(** The ["coordinates"] member of a line string geometry, else [[]]. *)
Definition line_coordinates (g : geom) : list Coord :=
  match g with
  | LineString cs => cs
  | _ => []
  end.

(** The map layers of [render_preview_map]. *)
Inductive layer : Set := Rows | Dests | Turns.

(** [app.py], lines 104-128: the layer a feature of the output is drawn on. *)
Definition preview_layer (feat : Feature) : layer :=
  let ptype := ptype feat in
  let geom_type := geom_type (f_geometry feat) in
  if String.eqb ptype "NetworkPath" then
    if String.eqb geom_type "LineString" then
      let coords := line_coordinates (f_geometry feat) in
      if (List.length coords <=? 3)%nat then Rows else Turns
    else Turns
  else if String.eqb ptype "NetworkDestination" then Dests
  else if String.eqb ptype "RowPath" then Rows
  else if String.eqb ptype "DestinationPoint" then Dests
  else Turns.

(** The layer the preview gives a path, by the geometry the path was built
    from: the row layer for a line string of at most three coordinates, the
    turn layer for anything else. *)
Definition path_layer (g : geom) : layer :=
  match g with
  | LineString cs => if (List.length cs <=? 3)%nat then Rows else Turns
  | _ => Turns
  end.

(** [app.py], lines 366-369: the features offered for export. *)
Definition filtered_features (output_fc : FeatureCollection) : list Feature :=
  filter (fun f =>
            existsb (String.eqb (ptype f))
              ["NetworkPath"; "NetworkDestination"; "RowPath";
               "DestinationPoint"; "TurnAttachment"])
         (features output_fc).



(** The alignment on one coordinate: projection, then rotation by the
    negated angle about A. *)
Definition align_coord {L : GeoLib} (fr : Frame) (c : Coord) : Coord :=
  sh_rotate (- angle_deg fr)%Q (rotation_origin fr)
    (pj_transform "EPSG:4326" (_get_utm_crs (center_lon fr) (center_lat fr)) c).

(** Componentwise equality of coordinates as rational numbers. *)
Definition coord_eq (c d : Coord) : Prop :=
  (fst c == fst d)%Q /\ (snd c == snd d)%Q.

(** The common properties of the features of one invocation. *)
Definition stamped (current_time : string) (f : Feature) : Prop :=
  match f_properties f with
  | NetworkPath created updated version direction speed enabled =>
      created = current_time /\ updated = current_time /\ version = 1
      /\ direction = "two_way" /\ speed = "1.2" /\ enabled = true
  | NetworkDestination group created updated version _ gid =>
      created = current_time /\ updated = current_time /\ version = 1
      /\ group = "" /\ gid = ""
  end.

(** Linear referencing in the exact plane: the position along a line of
    the point of the line nearest to a point, and the point at a position. *)
Module ExactLinearRef.

Local Open Scope Q_scope.

(** Where on the segment from [q0] to [q1] the point nearest to [p] lies, as
    a share of the segment between 0 and 1. *)
Definition share (p q0 q1 : Coord) : Q :=
  let dx := fst q1 - fst q0 in
  let dy := snd q1 - snd q0 in
  let len2 := dx * dx + dy * dy in
  if Qeq_bool len2 0 then 0
  else Qmax2 0 (Qmin2 1 (((fst p - fst q0) * dx + (snd p - snd q0) * dy) / len2)).

Definition along (q0 q1 : Coord) (t : Q) : Coord :=
  (Qred (fst q0 + t * (fst q1 - fst q0)), Qred (snd q0 + t * (snd q1 - snd q0))).

Definition dist2 (p q : Coord) : Q :=
  (fst p - fst q) * (fst p - fst q) + (snd p - snd q) * (snd p - snd q).

(** [best] is the squared distance and the position of the nearest point
    found so far, [walked] the length of the segments gone through. *)
Fixpoint project_from (p : Coord) (walked : Q) (best : option (Q * Q))
    (cs : list Coord) : Q :=
  match cs with
  | q0 :: (q1 :: _) as rest =>
      let t := share p q0 q1 in
      let d := dist2 p (along q0 q1 t) in
      let len := ExactPlane.distance q0 q1 in
      let here := (d, Qred (walked + t * len)) in
      let best' :=
        match best with
        | Some (d0, _) => if Qlt_bool d d0 then Some here else best
        | None => Some here
        end in
      project_from p (walked + len) best' rest
  | _ => match best with Some (_, pos) => pos | None => 0 end
  end.

Definition project (line : geom) (p : Coord) : Q :=
  match line with
  | LineString cs => project_from p 0 None cs
  | _ => 0
  end.

Fixpoint interpolate_from (d : Q) (cs : list Coord) : Coord :=
  match cs with
  | q0 :: (q1 :: more) as rest =>
      let len := ExactPlane.distance q0 q1 in
      if Qle_bool d 0 then q0
      else if Qle_bool d len
           then (if Qeq_bool len 0 then q0 else along q0 q1 (d / len))
           else match more with
                | [] => q1
                | _ => interpolate_from (d - len) rest
                end
  | q0 :: [] => q0
  | [] => (0, 0)
  end.

Definition interpolate (line : geom) (d : Q) : Coord :=
  match line with
  | LineString cs => interpolate_from d cs
  | _ => (0, 0)
  end.

#[global] Instance ref : LinearRef := {|
  sh_project := project;
  sh_interpolate := interpolate
|}.

End ExactLinearRef.

(** * Theorems *)

(** ** The effect monad *)

Lemma rbind_ok {A B} (r : result A) (f : A -> result B) (b : B) :
  rbind r f = Ok b -> exists x, r = Ok x /\ f x = Ok b.
Proof.
  destruct r as [x|e]; simpl; intros H; [eauto | discriminate].
Qed.

Lemma rbind_raise {A B} (r : result A) (f : A -> result B) (e : exn) :
  r = Raise e -> rbind r f = Raise e.
Proof. intros ->; reflexivity. Qed.

Ltac invert_rbind H :=
  let x := fresh "x" in
  let Hx := fresh "Hx" in
  apply rbind_ok in H; destruct H as (x & Hx & H).

(** ** Binary64 rounding

    The rounding of [Binary64] keeps the order of the numbers and leaves
    the integers up to [2^53] as they are: the two laws of [FloatLaws]. *)

Section Rounding.

Import Binary64.
Local Open Scope Q_scope.

Lemma nearest_even_bounds (q : Q) :
  (Qfloor q <= nearest_even q <= Qfloor q + 1)%Z.
Proof.
  unfold nearest_even.
  destruct (Qcompare _ _); [destruct (Z.even _)| |]; lia.
Qed.

Lemma nearest_even_above (k : Z) (q : Q) :
  inject_Z k <= q -> (k <= nearest_even q)%Z.
Proof.
  intros H. apply Qfloor_resp_le in H. rewrite Qfloor_Z in H.
  pose proof (nearest_even_bounds q). lia.
Qed.

Lemma nearest_even_below (k : Z) (q : Q) :
  q <= inject_Z k -> (nearest_even q <= k)%Z.
Proof.
  intros H. pose proof (nearest_even_bounds q) as Hb.
  pose proof (Qfloor_resp_le _ _ H) as Hf. rewrite Qfloor_Z in Hf.
  destruct (Z.eq_dec (Qfloor q) k) as [E|E]; [|lia].
  assert (Hq : q - inject_Z (Qfloor q) == 0).
  { pose proof (Qfloor_le q) as Hl. rewrite E in *. lra. }
  unfold nearest_even.
  destruct (Qcompare_spec (q - inject_Z (Qfloor q)) (1 # 2)) as [Hc|Hc|Hc];
    try lia; lra.
Qed.

Lemma nearest_even_le (x y : Q) :
  x <= y -> (nearest_even x <= nearest_even y)%Z.
Proof.
  intros H. pose proof (Qfloor_resp_le _ _ H) as Hf.
  pose proof (nearest_even_bounds x). pose proof (nearest_even_bounds y).
  destruct (Z.eq_dec (Qfloor x) (Qfloor y)) as [E|E]; [|lia].
  unfold nearest_even. rewrite <- E.
  destruct (Qcompare_spec (x - inject_Z (Qfloor x)) (1 # 2)),
           (Qcompare_spec (y - inject_Z (Qfloor x)) (1 # 2));
    try destruct (Z.even _); try lia; lra.
Qed.

Lemma nearest_even_int (k : Z) (q : Q) :
  q == inject_Z k -> nearest_even q = k.
Proof.
  intros H.
  assert (k <= nearest_even q)%Z by (apply nearest_even_above; lra).
  assert (nearest_even q <= k)%Z by (apply nearest_even_below; lra).
  lia.
Qed.

Lemma two_power_pos (z : Z) : 0 < 2 ^ z.
Proof. apply Qpower_0_lt. reflexivity. Qed.

Lemma two_power_Z (n : Z) : (0 <= n)%Z -> 2 ^ n == inject_Z (2 ^ n).
Proof. intros H. now rewrite Zpower_Qpower. Qed.

Lemma exponent_spec (a : Q) :
  0 < a -> 2 ^ exponent a <= a /\ a < 2 ^ (exponent a + 1).
Proof.
  intros Ha. unfold exponent.
  destruct a as [n d]. cbn [Qnum Qden].
  assert (Hn : (0 < n)%Z) by (unfold Qlt in Ha; simpl in Ha; lia).
  pose proof (Z.log2_spec n Hn) as (Hn1 & Hn2).
  pose proof (Z.log2_spec (Z.pos d) ltac:(lia)) as (Hd1 & Hd2).
  pose proof (Z.log2_nonneg n) as Hln.
  pose proof (Z.log2_nonneg (Z.pos d)) as Hld.
  set (ln := Z.log2 n) in *. set (ld := Z.log2 (Z.pos d)) in *.
  assert (Hnd : n # d == inject_Z n / inject_Z (Z.pos d)) by apply Qmake_Qdiv.
  assert (Hdpos : 0 < inject_Z (Z.pos d)) by reflexivity.
  assert (Hup : n # d < 2 ^ (ln - ld + 1)).
  { replace (ln - ld + 1)%Z with (ln + 1 - ld)%Z by lia.
    rewrite Qpower_minus by discriminate.
    rewrite (two_power_Z (ln + 1)), (two_power_Z ld) by lia.
    rewrite Hnd.
    apply Qlt_shift_div_l.
    { rewrite <- (Zlt_Qlt 0). lia. }
    unfold Qdiv. rewrite <- Qmult_assoc, (Qmult_comm (/ _)), Qmult_assoc.
    apply Qlt_shift_div_r; [exact Hdpos|].
    rewrite <- !inject_Z_mult, <- Zlt_Qlt.
    replace (Z.succ ln) with (ln + 1)%Z in Hn2 by lia.
    assert (0 < 2 ^ ld)%Z by lia. nia. }
  assert (Hlo : 2 ^ (ln - ld - 1) <= n # d).
  { replace (ln - ld - 1)%Z with (ln - (ld + 1))%Z by lia.
    rewrite Qpower_minus by discriminate.
    rewrite (two_power_Z ln), (two_power_Z (ld + 1)) by lia.
    rewrite Hnd.
    apply Qle_shift_div_r.
    { rewrite <- (Zlt_Qlt 0). lia. }
    unfold Qdiv. rewrite <- Qmult_assoc, (Qmult_comm (/ _)), Qmult_assoc.
    apply Qle_shift_div_l; [exact Hdpos|].
    rewrite <- !inject_Z_mult, <- Zle_Qle.
    replace (Z.succ ld) with (ld + 1)%Z in Hd2 by lia.
    assert (0 < 2 ^ ln)%Z by lia. nia. }
  destruct (Qle_bool (2 ^ (ln - ld)) (n # d)) eqn:Hb.
  - apply Qle_bool_iff in Hb. split; assumption.
  - split; [exact Hlo|].
    replace (ln - ld - 1 + 1)%Z with (ln - ld)%Z by lia.
    apply Qnot_le_lt. intros Hc. apply Qle_bool_iff in Hc. congruence.
Qed.

Lemma round_positive (q : Q) : 0 < q -> round q == nearest q.
Proof.
  intros H. unfold round, nearest, ulp.
  assert (Hz : Qeq_bool q 0 = false).
  { destruct (Qeq_bool q 0) eqn:E; [|reflexivity].
    apply Qeq_bool_iff in E. lra. }
  assert (Hs : Qle_bool 0 q = true) by (apply Qle_bool_iff; lra).
  assert (Ha : Qabs q = q).
  { destruct q as [n d]. unfold Qabs. f_equal. apply Z.abs_eq.
    unfold Qlt in H. simpl in H. lia. }
  rewrite Hz, Hs. cbv zeta. rewrite Ha. apply Qred_correct.
Qed.

Lemma round_negative (q : Q) : q < 0 -> round q == - round (- q).
Proof.
  intros H. unfold round.
  assert (Hz : Qeq_bool q 0 = false).
  { destruct (Qeq_bool q 0) eqn:E; [|reflexivity].
    apply Qeq_bool_iff in E. lra. }
  assert (Hz' : Qeq_bool (- q) 0 = false).
  { destruct (Qeq_bool (- q) 0) eqn:E; [|reflexivity].
    apply Qeq_bool_iff in E. lra. }
  assert (Hs : Qle_bool 0 q = false).
  { destruct (Qle_bool 0 q) eqn:E; [|reflexivity].
    apply Qle_bool_iff in E. lra. }
  assert (Hs' : Qle_bool 0 (- q) = true) by (apply Qle_bool_iff; lra).
  assert (Ha : Qabs q = - q).
  { destruct q as [n d]. unfold Qabs, Qopp. cbn [Qnum Qden]. f_equal.
    apply Z.abs_neq. unfold Qlt in H. simpl in H. lia. }
  assert (Ha' : Qabs (- q) = - q).
  { destruct q as [n d]. unfold Qabs, Qopp. cbn [Qnum Qden]. f_equal.
    apply Z.abs_eq. unfold Qlt in H. simpl in H. lia. }
  rewrite Hz, Hz', Hs, Hs'. cbv zeta. rewrite Ha, Ha'.
  rewrite !Qred_correct. reflexivity.
Qed.

Lemma round_zero (q : Q) : q == 0 -> round q == 0.
Proof.
  intros H. unfold round.
  assert (Hz : Qeq_bool q 0 = true) by (apply Qeq_bool_iff; exact H).
  rewrite Hz. reflexivity.
Qed.

Lemma ulp_pos (a : Q) : 0 < ulp a.
Proof. apply two_power_pos. Qed.

Lemma ulp_low (a : Q) : 2 ^ exponent a == inject_Z (2 ^ 52) * ulp a.
Proof.
  unfold ulp. rewrite <- (two_power_Z 52) by lia.
  rewrite <- Qpower_plus by discriminate.
  replace (52 + (exponent a - 52))%Z with (exponent a) by lia. reflexivity.
Qed.

Lemma ulp_high (a : Q) : 2 ^ (exponent a + 1) == inject_Z (2 ^ 53) * ulp a.
Proof.
  unfold ulp. rewrite <- (two_power_Z 53) by lia.
  rewrite <- Qpower_plus by discriminate.
  replace (53 + (exponent a - 52))%Z with (exponent a + 1)%Z by lia.
  reflexivity.
Qed.

Lemma nearest_bounds (a : Q) :
  0 < a -> 2 ^ exponent a <= nearest a /\ nearest a <= 2 ^ (exponent a + 1).
Proof.
  intros Ha. destruct (exponent_spec a Ha) as [Hlo Hhi].
  pose proof (ulp_pos a) as Hu.
  rewrite ulp_low in Hlo |- *. rewrite ulp_high in Hhi |- *.
  unfold nearest. split.
  - apply Qmult_le_compat_r; [|lra].
    rewrite <- Zle_Qle. apply nearest_even_above.
    apply Qle_shift_div_l; assumption.
  - apply Qmult_le_compat_r; [|lra].
    rewrite <- Zle_Qle. apply nearest_even_below.
    apply Qle_shift_div_r; [assumption|lra].
Qed.

Lemma nearest_pos (a : Q) : 0 < a -> 0 < nearest a.
Proof.
  intros Ha. destruct (nearest_bounds a Ha) as [H _].
  pose proof (two_power_pos (exponent a)). lra.
Qed.

Lemma nearest_le (a b : Q) : 0 < a -> a <= b -> nearest a <= nearest b.
Proof.
  intros Ha Hab. assert (Hb : 0 < b) by lra.
  destruct (exponent_spec a Ha) as [Ha1 Ha2].
  destruct (exponent_spec b Hb) as [Hb1 Hb2].
  assert (He : (exponent a <= exponent b)%Z).
  { assert (H : 2 ^ exponent a < 2 ^ (exponent b + 1)) by lra.
    apply Qpower_lt_compat_l_inv in H; [lia|reflexivity]. }
  destruct (Z.eq_dec (exponent a) (exponent b)) as [E|E].
  - unfold nearest, ulp. rewrite E.
    apply Qmult_le_compat_r; [|apply Qlt_le_weak, two_power_pos].
    rewrite <- Zle_Qle. apply nearest_even_le.
    apply Qmult_le_compat_r; [exact Hab|].
    apply Qlt_le_weak, Qinv_lt_0_compat, two_power_pos.
  - destruct (nearest_bounds a Ha) as [_ H1].
    destruct (nearest_bounds b Hb) as [H2 _].
    assert (H : 2 ^ (exponent a + 1) <= 2 ^ exponent b).
    { apply Qpower_le_compat_l; [lia|discriminate]. }
    lra.
Qed.

Lemma round_le (x y : Q) : x <= y -> round x <= round y.
Proof.
  intros H.
  destruct (Q_dec x 0) as [[Hx|Hx]|Hx], (Q_dec y 0) as [[Hy|Hy]|Hy].
  - rewrite (round_negative x Hx), (round_negative y Hy).
    assert (H1 : 0 < - y) by lra. assert (H2 : - y <= - x) by lra.
    rewrite (round_positive (- x)) by lra. rewrite (round_positive (- y) H1).
    pose proof (nearest_le _ _ H1 H2). lra.
  - rewrite (round_negative x Hx), (round_positive y Hy).
    rewrite (round_positive (- x)) by lra.
    pose proof (nearest_pos (- x) ltac:(lra)). pose proof (nearest_pos y Hy).
    lra.
  - rewrite (round_negative x Hx), (round_zero y Hy).
    rewrite (round_positive (- x)) by lra.
    pose proof (nearest_pos (- x) ltac:(lra)). lra.
  - lra.
  - rewrite (round_positive x Hx), (round_positive y Hy).
    apply nearest_le; assumption.
  - lra.
  - lra.
  - rewrite (round_zero x Hx), (round_positive y Hy).
    pose proof (nearest_pos y Hy). lra.
  - rewrite (round_zero x Hx), (round_zero y Hy). lra.
Qed.

Lemma nearest_int (n : Z) :
  (0 < n <= 2 ^ 53)%Z -> nearest (inject_Z n) == inject_Z n.
Proof.
  intros [Hn Hmax].
  assert (Ha : 0 < inject_Z n) by (rewrite <- (Zlt_Qlt 0); exact Hn).
  destruct (exponent_spec _ Ha) as [Hlo Hhi].
  set (e := exponent (inject_Z n)) in *.
  assert (He0 : (0 <= e)%Z).
  { assert (H : 2 ^ 0 < 2 ^ (e + 1)).
    { apply Qle_lt_trans with (inject_Z n); [|exact Hhi].
      change (2 ^ 0) with (inject_Z 1). rewrite <- Zle_Qle. lia. }
    pose proof (Qpower_lt_compat_l_inv 2 0 (e + 1) H eq_refl). lia. }
  assert (He : (e <= 53)%Z).
  { assert (H : 2 ^ e <= 2 ^ 53).
    { apply Qle_trans with (inject_Z n); [exact Hlo|].
      rewrite (two_power_Z 53) by lia. rewrite <- Zle_Qle. exact Hmax. }
    exact (Qpower_le_compat_l_inv 2 e 53 H eq_refl). }
  unfold nearest, ulp. fold e.
  destruct (Z.eq_dec e 53) as [E|E].
  - assert (Hn53 : n = (2 ^ 53)%Z).
    { rewrite E, (two_power_Z 53) in Hlo by lia.
      rewrite <- Zle_Qle in Hlo. lia. }
    rewrite E, Hn53. vm_compute. reflexivity.
  - assert (Hu : 2 ^ (e - 52) == / inject_Z (2 ^ (52 - e))).
    { replace (e - 52)%Z with (- (52 - e))%Z by lia.
      rewrite Qpower_opp, (two_power_Z (52 - e)) by lia. reflexivity. }
    assert (Hp : 0 < inject_Z (2 ^ (52 - e))).
    { rewrite <- (Zlt_Qlt 0). apply Z.pow_pos_nonneg; lia. }
    rewrite (nearest_even_int (n * 2 ^ (52 - e))).
    + rewrite Hu, inject_Z_mult. field. lra.
    + rewrite Hu, inject_Z_mult. field. lra.
Qed.

Lemma round_int (n : Z) :
  (Z.abs n <= 2 ^ 53)%Z -> round (inject_Z n) == inject_Z n.
Proof.
  intros H. destruct (Z.lt_trichotomy n 0) as [Hn|[Hn|Hn]].
  - assert (Hq : inject_Z n < 0) by (rewrite (Zlt_Qlt n 0) in Hn; exact Hn).
    rewrite (round_negative _ Hq).
    change (- inject_Z n) with (inject_Z (- n)).
    assert (Hq' : 0 < inject_Z (- n)) by (rewrite <- (Zlt_Qlt 0); lia).
    rewrite (round_positive _ Hq'), nearest_int by lia.
    rewrite inject_Z_opp. lra.
  - subst n. reflexivity.
  - assert (Hq : 0 < inject_Z n) by (rewrite <- (Zlt_Qlt 0); exact Hn).
    rewrite (round_positive _ Hq). apply nearest_int. lia.
Qed.

Lemma binary64_laws : FloatLaws Binary64.arith.
Proof. split; [exact round_le | exact round_int]. Qed.

End Rounding.

(** ** The loop is planning followed by emission *)

Section Loop.

Context {L : GeoLib}.
Variables (w : World) (a : Args) (fr : Frame) (tp : Templates) (t : string).

Lemma loop_body_plan (fs ds : list Feature) (row : Z * geom) (k : nat) :
  loop_body w a fr tp t (fs, ds) row k =
  match row_plan a fr tp row with
  | Ok p =>
      let o := emit_row w t k p in
      Ok ((fs ++ ro_path o :: ro_turns o, ds ++ [ro_dest o]), (k + draws p)%nat)
  | Raise e => Raise e
  end.
Proof.
  destruct row as [i seg].
  unfold loop_body, row_plan, bind, lift, fresh_uuid, ret; simpl fst; simpl snd.
  repeat match goal with
         | |- context [rbind ?r _] =>
             destruct r eqn:?; simpl rbind; cbv iota beta; try reflexivity
         end.
  all: unfold emit_row, draws; simpl.
  all: repeat match goal with
              | |- context [match ?x with Some _ => _ | None => _ end] =>
                  destruct x
              end; simpl; try reflexivity.
  all: repeat rewrite <- app_assoc; simpl; repeat (f_equal; try lia).
Qed.

Lemma for_each_rows (rows : list (Z * geom)) :
  forall fs ds k,
    for_each (loop_body w a fr tp t) rows (fs, ds) k =
    match plan_rows a fr tp rows with
    | Ok ps =>
        let outs := emit_rows w t k ps in
        Ok ((fs ++ path_features outs, ds ++ destination_features outs),
            fold_left (fun n p => (n + draws p)%nat) ps k)
    | Raise e => Raise e
    end.
Proof.
  induction rows as [|row rows IH]; intros fs ds k; cbn [for_each plan_rows].
  - unfold ret; simpl. now rewrite !app_nil_r.
  - unfold bind. rewrite loop_body_plan.
    destruct (row_plan a fr tp row) as [p|e]; simpl; [|reflexivity].
    rewrite IH.
    destruct (plan_rows a fr tp rows) as [ps|e]; simpl; [|reflexivity].
    unfold path_features, destination_features; simpl.
    now rewrite <- !app_assoc.
Qed.

End Loop.

(** [generate_rows_geojson] assembles the outputs of its rows. *)
Lemma generate_assemble {L : GeoLib} (w : World) (a : Args) :
  generate_rows_geojson w a =
  rbind (row_outputs w a) (fun outs => Ok (assemble outs)).
Proof.
  unfold generate_rows_geojson, row_outputs, templates.
  destruct (frame a) as [fr|e]; simpl; [|reflexivity].
  destruct (prepare_turn_template _ _ (custom_turn_geojson a)) as [c|e];
    simpl; [|reflexivity].
  destruct (prepare_turn_template _ _ (secondary_turn_geojson a)) as [s|e];
    simpl; [|reflexivity].
  rewrite for_each_rows.
  destruct (plan_rows _ _ _ _) as [ps|e]; simpl; reflexivity.
Qed.

(** ** Lists, coordinates and comparisons *)

Lemma Qlt_bool_iff (x y : Q) : Qlt_bool x y = true <-> (x < y)%Q.
Proof.
  unfold Qlt_bool. rewrite negb_true_iff, <- not_true_iff_false, Qle_bool_iff.
  split; [apply Qnot_le_lt | apply Qlt_not_le].
Qed.

Lemma Qlt_bool_false_iff (x y : Q) : Qlt_bool x y = false <-> ~ (x < y)%Q.
Proof. rewrite <- Qlt_bool_iff. symmetry. apply not_true_iff_false. Qed.

Lemma first_item_map {A B} (f : A -> B) (l : list A) (x : A) :
  first_item l = Ok x -> first_item (map f l) = Ok (f x).
Proof. destruct l; simpl; intros H; inversion H; reflexivity. Qed.

Lemma last_item_map {A B} (f : A -> B) (l : list A) (x : A) :
  last_item l = Ok x -> last_item (map f l) = Ok (f x).
Proof. unfold last_item. rewrite <- map_rev. apply first_item_map. Qed.

Lemma first_item_In {A} (l : list A) (x : A) : first_item l = Ok x -> In x l.
Proof. destruct l; simpl; intros H; inversion H; now left. Qed.

Lemma Forall2_In_r {A B} (R : A -> B -> Prop) (l : list A) (l' : list B) (y : B) :
  Forall2 R l l' -> In y l' -> exists x, In x l /\ R x y.
Proof.
  induction 1 as [|x y' l l' Hxy _ IH]; simpl; [tauto|].
  intros [<- | Hin].
  - exists x; auto.
  - destruct (IH Hin) as (x' & Hx' & HR). exists x'; auto.
Qed.

Lemma coords_map_geom (f : Coord -> Coord) (g : geom) (cs : list Coord) :
  coords g = Ok cs -> coords (map_geom f g) = Ok (map f cs).
Proof. destruct g; simpl; intros H; inversion H; reflexivity. Qed.

(** ** Coordinate-wise maps *)

Lemma all_coords_map_geom (f : Coord -> Coord) :
  forall g, all_coords (map_geom f g) = map f (all_coords g).
Proof.
  fix IH 1. intros [c|cs|ext ints|cs|ls|gs]; simpl; try reflexivity.
  - now rewrite map_app, concat_map.
  - now rewrite concat_map.
  - induction gs as [|g gs IHgs]; simpl; [reflexivity|].
    now rewrite map_app, IH, IHgs.
Qed.

Lemma geom_type_map_geom (f : Coord -> Coord) (g : geom) :
  geom_type (map_geom f g) = geom_type g.
Proof. destruct g; reflexivity. Qed.

Lemma map_geom_compose (f h : Coord -> Coord) :
  forall g, map_geom f (map_geom h g) = map_geom (fun c => f (h c)) g.
Proof.
  fix IH 1. intros [c|cs|ext ints|cs|ls|gs]; simpl.
  - reflexivity.
  - now rewrite map_map.
  - rewrite map_map. f_equal. rewrite map_map. apply map_ext.
    intros l. apply map_map.
  - now rewrite map_map.
  - f_equal. rewrite map_map. apply map_ext. intros l. apply map_map.
  - f_equal. induction gs as [|g gs IHgs]; simpl; [reflexivity|].
    now rewrite IH, IHgs.
Qed.


(** ** Rows, plans and outputs *)

Section Plans.

Context {L : GeoLib}.

Lemma transform_back_coords (fr : Frame) (g : geom) (cs : list Coord) :
  coords g = Ok cs ->
  coords (transform_back fr g) = Ok (map (back_coord fr) cs).
Proof.
  intros H. unfold transform_back, _from_utm, _rotate.
  rewrite (coords_map_geom _ _ _ (coords_map_geom _ _ _ H)).
  now rewrite map_map.
Qed.

Lemma turn_a_geom_attached a fr tp p1 p2 ang g :
  turn_a_geom a fr tp p1 p2 ang = Ok g -> is_some g = turn_a_attached a tp.
Proof.
  unfold turn_a_geom, turn_a_attached, anchor_point.
  destruct (String.eqb _ _); simpl; [|intros H; now inversion H].
  destruct (or_else (custom_m_template tp) _) as [t|],
           (or_else (custom_anchor_m tp) _); simpl;
    try (intros H; now inversion H).
  destruct (is_empty t); simpl; intros H; [discriminate H | now inversion H].
Qed.

Lemma turn_b_geom_attached a fr tp p1 p2 ang g :
  turn_b_geom a fr tp p1 p2 ang = Ok g -> is_some g = turn_b_attached a tp.
Proof.
  unfold turn_b_geom, turn_b_attached, anchor_point.
  destruct (String.eqb _ _); simpl; [|intros H; now inversion H].
  destruct (or_else (secondary_m_template tp) _) as [t|],
           (or_else (secondary_anchor_m tp) _); simpl;
    try (intros H; now inversion H).
  destruct (is_empty t); simpl; intros H; [discriminate H | now inversion H].
Qed.

(** What a successful plan records about its row. *)
Lemma row_plan_inv a fr tp row p :
  row_plan a fr tp row = Ok p ->
  exists cs,
    rp_index p = fst row
    /\ orient fr (snd row) = Ok (rp_seg p)
    /\ coords (rp_seg p) = Ok cs
    /\ first_item cs = Ok (rp_p1 p)
    /\ last_item cs = Ok (rp_p2 p)
    /\ row_label a (fst row) = Ok (rp_label p)
    /\ rp_path p = transform_back fr (rp_seg p)
    /\ (if use_start (dest_side a) (sh_distance (rp_p1 p) (a_rot fr))
                      (sh_distance (rp_p2 p) (a_rot fr))
        then first_item (map (back_coord fr) cs)
        else last_item (map (back_coord fr) cs)) = Ok (rp_dest p)
    /\ is_some (rp_turn_a p) = turn_a_attached a tp
    /\ is_some (rp_turn_b p) = turn_b_attached a tp.
Proof.
  unfold row_plan. intros H.
  apply rbind_ok in H; destruct H as (seg & Hseg & H).
  apply rbind_ok in H; destruct H as (cs & Hcs & H).
  apply rbind_ok in H; destruct H as (label & Hlabel & H).
  apply rbind_ok in H; destruct H as (p1 & Hp1 & H).
  apply rbind_ok in H; destruct H as (p2 & Hp2 & H).
  rewrite (transform_back_coords fr seg cs Hcs) in H.
  apply rbind_ok in H; destruct H as (wc & Hwc & H).
  inversion Hwc; subst wc; clear Hwc.
  apply rbind_ok in H; destruct H as (dc & Hdc & H).
  apply rbind_ok in H; destruct H as (cu & Hcu & H).
  apply rbind_ok in H; destruct H as (u0 & Hu0 & H).
  apply rbind_ok in H; destruct H as (u1 & Hu1 & H).
  apply rbind_ok in H; destruct H as (ta & Hta & H).
  apply rbind_ok in H; destruct H as (tb & Htb & H).
  inversion H; subst p; clear H; simpl.
  exists cs. repeat split; try assumption.
  - exact (turn_a_geom_attached _ _ _ _ _ _ _ Hta).
  - exact (turn_b_geom_attached _ _ _ _ _ _ _ Htb).
Qed.

Lemma plan_rows_Forall2 a fr tp rows ps :
  plan_rows a fr tp rows = Ok ps ->
  Forall2 (fun row p => row_plan a fr tp row = Ok p) rows ps.
Proof.
  revert ps. induction rows as [|row rows IH]; simpl; intros ps H.
  - inversion H; constructor.
  - apply rbind_ok in H; destruct H as (p & Hp & H).
    apply rbind_ok in H; destruct H as (ps' & Hps & H).
    inversion H; subst; constructor; auto.
Qed.

Lemma emit_rows_plans w t ps : forall k, map ro_plan (emit_rows w t k ps) = ps.
Proof. induction ps as [|p ps IH]; intros k; simpl; [|rewrite IH]; reflexivity. Qed.

Lemma emit_rows_In w t ps o :
  forall k, In o (emit_rows w t k ps) ->
            exists k', o = emit_row w t k' (ro_plan o) /\ In (ro_plan o) ps.
Proof.
  induction ps as [|p ps IH]; intros k; simpl; [tauto|].
  intros [<- | H].
  - exists k; simpl; auto.
  - destruct (IH _ H) as (k' & Hk & Hin). exists k'; auto.
Qed.

Lemma row_outputs_inv w a outs :
  row_outputs w a = Ok outs ->
  exists fr tp ps,
    frame a = Ok fr /\ templates a fr = Ok tp
    /\ plan_rows a fr tp (clipped_rows a fr) = Ok ps
    /\ outs = emit_rows w (utcnow w) 0 ps.
Proof.
  unfold row_outputs. intros H.
  apply rbind_ok in H; destruct H as (fr & Hfr & H).
  apply rbind_ok in H; destruct H as (tp & Htp & H).
  apply rbind_ok in H; destruct H as (ps & Hps & H).
  inversion H; subst. now exists fr, tp, ps.
Qed.

(** Every output row comes from a clipped row of the frame. *)
Lemma row_outputs_rows w a fr outs o :
  frame a = Ok fr -> row_outputs w a = Ok outs -> In o outs ->
  exists tp row k,
    templates a fr = Ok tp /\ In row (clipped_rows a fr)
    /\ row_plan a fr tp row = Ok (ro_plan o)
    /\ o = emit_row w (utcnow w) k (ro_plan o).
Proof.
  intros Hfr Hout Hin.
  destruct (row_outputs_inv _ _ _ Hout) as (fr' & tp & ps & Hfr' & Htp & Hps & ->).
  rewrite Hfr in Hfr'; inversion Hfr'; subst fr'; clear Hfr'.
  destruct (emit_rows_In _ _ _ _ _ Hin) as (k & Ho & Hp).
  destruct (Forall2_In_r _ _ _ _ (plan_rows_Forall2 _ _ _ _ _ Hps) Hp)
    as (row & Hrow & Hplan).
  exists tp, row, k; auto.
Qed.

End Plans.

Lemma generate_inv {L : GeoLib} (w : World) (a : Args) (fc : FeatureCollection) :
  generate_rows_geojson w a = Ok fc ->
  exists outs, row_outputs w a = Ok outs /\ fc = assemble outs.
Proof.
  rewrite generate_assemble. intros H.
  apply rbind_ok in H; destruct H as (outs & Hout & H).
  inversion H. now exists outs.
Qed.

(** ** Destinations and row endpoints *)

(** C2 - For every row of the output, the coordinate of its
    NetworkDestination feature is equal, as a pair of numbers and not up to
    a tolerance, to the first or to the last coordinate of that row's
    NetworkPath geometry; that geometry is the oriented segment after the
    transform back, and the destination is read off it. *)
Theorem C2_destination_is_path_endpoint {L : GeoLib}
    (w : World) (a : Args) (fc : FeatureCollection) :
  generate_rows_geojson w a = Ok fc ->
  exists fr outs,
    frame a = Ok fr
    /\ row_outputs w a = Ok outs
    /\ features fc = flat_map (fun o => ro_path o :: ro_turns o) outs
                     ++ map ro_dest outs
    /\ forall o, In o outs ->
         exists row cs c,
           In row (clipped_rows a fr)
           /\ orient fr (snd row) = Ok (rp_seg (ro_plan o))
           /\ is_path (ro_path o) = true
           /\ f_geometry (ro_path o) = transform_back fr (rp_seg (ro_plan o))
           /\ coords (f_geometry (ro_path o)) = Ok cs
           /\ is_destination (ro_dest o) = true
           /\ f_geometry (ro_dest o) = Point c
           /\ (first_item cs = Ok c \/ last_item cs = Ok c).
Proof.
  intros H.
  destruct (generate_inv _ _ _ H) as (outs & Hout & ->).
  destruct (row_outputs_inv _ _ _ Hout) as (fr & _ & _ & Hfr & _).
  exists fr, outs. repeat split; try assumption.
  intros o Hin.
  destruct (row_outputs_rows _ _ _ _ _ Hfr Hout Hin)
    as (tp & row & k & _ & Hrow & Hplan & Ho).
  destruct (row_plan_inv _ _ _ _ _ Hplan)
    as (cs & _ & Hor & Hcs & _ & _ & _ & Hpath & Hdest & _).
  exists row, (map (back_coord fr) cs), (rp_dest (ro_plan o)).
  rewrite Ho; simpl. rewrite Hpath.
  repeat split; try assumption.
  - now apply transform_back_coords.
  - destruct (use_start _ _ _); [left | right]; assumption.
Qed.

Lemma C2_witness :
  exists fc fr outs,
    generate_rows_geojson Samples.w0 Samples.args_east = Ok fc
    /\ frame Samples.args_east = Ok fr
    /\ row_outputs Samples.w0 Samples.args_east = Ok outs.
Proof.
  destruct (generate_rows_geojson Samples.w0 Samples.args_east) as [fc|e] eqn:H.
  - destruct (C2_destination_is_path_endpoint _ _ _ H) as (fr & outs & Hfr & Ho & _).
    exists fc, fr, outs. auto.
  - vm_compute in H. discriminate H.
Defined.

(** Lines 345-353 at a tie.  In the aligned frame, in metres, a row from
    (500020, 4000075) to (500080, 4000075) and A at (500050, 4000035): both
    endpoints are at distance 50 from A (a 30-40-50 triangle on either side,
    all numbers being floats).  With destination side A the test
    [dist1_to_a < dist2_to_a] is false, so the code takes the last endpoint,
    not the first. *)
Lemma C4_tie_takes_last_endpoint :
  let a_rot := (500050, 4000035)%Q in
  let p1_rot := (500020, 4000075)%Q in
  let p2_rot := (500080, 4000075)%Q in
  let dist1_to_a := sh_distance p1_rot a_rot in
  let dist2_to_a := sh_distance p2_rot a_rot in
  (dist1_to_a == 50)%Q /\ (dist2_to_a == 50)%Q
  /\ p1_rot <> p2_rot
  /\ use_start "A" dist1_to_a dist2_to_a = false
  /\ dest_pt_rot "A" dist1_to_a dist2_to_a p1_rot p2_rot = p2_rot.
Proof.
  cbv zeta.
  split; [vm_compute; reflexivity|]. split; [vm_compute; reflexivity|].
  split; [intros H; inversion H|].
  split; vm_compute; reflexivity.
Qed.

(** C4 - As amended.  For every row of the output, with d1 and d2 the
    distances in the aligned frame from the first and the last endpoint of
    the oriented segment to A: when the destination side is A (in any letter
    case) the destination is the first endpoint if d1 < d2 and the last
    endpoint otherwise, so also when d1 = d2; for any other side it is the
    first endpoint if d1 > d2 and the last endpoint otherwise.  The
    destination coordinate is the corresponding end of the output path. *)
Theorem C4_destination_choice {L : GeoLib}
    (w : World) (a : Args) (fc : FeatureCollection) :
  generate_rows_geojson w a = Ok fc ->
  exists fr outs,
    frame a = Ok fr
    /\ row_outputs w a = Ok outs
    /\ features fc = flat_map (fun o => ro_path o :: ro_turns o) outs
                     ++ map ro_dest outs
    /\ forall o, In o outs ->
         let p := ro_plan o in
         let d1 := sh_distance (rp_p1 p) (a_rot fr) in
         let d2 := sh_distance (rp_p2 p) (a_rot fr) in
         let first_end := Point (back_coord fr (rp_p1 p)) in
         let last_end := Point (back_coord fr (rp_p2 p)) in
         exists cs,
           coords (rp_seg p) = Ok cs
           /\ first_item cs = Ok (rp_p1 p)
           /\ last_item cs = Ok (rp_p2 p)
           /\ coords (f_geometry (ro_path o)) = Ok (map (back_coord fr) cs)
           /\ (upper (dest_side a) = "A" ->
               ((d1 < d2)%Q -> f_geometry (ro_dest o) = first_end)
               /\ (~ (d1 < d2)%Q -> f_geometry (ro_dest o) = last_end))
           /\ (upper (dest_side a) <> "A" ->
               ((d2 < d1)%Q -> f_geometry (ro_dest o) = first_end)
               /\ (~ (d2 < d1)%Q -> f_geometry (ro_dest o) = last_end)).
Proof.
  intros Hgen.
  destruct (generate_inv _ _ _ Hgen) as (outs & Hout & ->).
  destruct (row_outputs_inv _ _ _ Hout) as (fr & _ & _ & Hfr & _).
  exists fr, outs.
  split; [exact Hfr|]. split; [exact Hout|]. split; [reflexivity|].
  intros o Hin p d1 d2 first_end last_end.
  subst d1 d2 first_end last_end.
  destruct (row_outputs_rows _ _ _ _ _ Hfr Hout Hin)
    as (tp & row & k & _ & _ & Hplan & Ho).
  destruct (row_plan_inv _ _ _ _ _ Hplan)
    as (cs & _ & _ & Hcs & Hp1 & Hp2 & _ & Hpath & Hdest & _).
  fold p in Hcs, Hp1, Hp2, Hpath, Hdest.
  assert (Hgeo : f_geometry (ro_dest o) = Point (rp_dest p))
    by (rewrite Ho; reflexivity).
  assert (Hgeo' : f_geometry (ro_path o) = rp_path p)
    by (rewrite Ho; reflexivity).
  assert (Hcase :
    rp_dest p = if use_start (dest_side a) (sh_distance (rp_p1 p) (a_rot fr))
                             (sh_distance (rp_p2 p) (a_rot fr))
                then back_coord fr (rp_p1 p) else back_coord fr (rp_p2 p)).
  { destruct (use_start (dest_side a) (sh_distance (rp_p1 p) (a_rot fr))
                        (sh_distance (rp_p2 p) (a_rot fr))).
    - rewrite (first_item_map _ _ _ Hp1) in Hdest. now inversion Hdest.
    - rewrite (last_item_map _ _ _ Hp2) in Hdest. now inversion Hdest. }
  exists cs.
  split; [exact Hcs|]. split; [exact Hp1|]. split; [exact Hp2|].
  split; [rewrite Hgeo', Hpath; now apply transform_back_coords|].
  split.
  - intros HA. split; intros Hlt; rewrite Hgeo, Hcase; unfold use_start;
      rewrite HA, String.eqb_refl.
    + apply Qlt_bool_iff in Hlt. now rewrite Hlt.
    + apply Qlt_bool_false_iff in Hlt. now rewrite Hlt.
  - intros HA. apply String.eqb_neq in HA.
    split; intros Hlt; rewrite Hgeo, Hcase; unfold use_start; rewrite HA.
    + apply Qlt_bool_iff in Hlt. now rewrite Hlt.
    + apply Qlt_bool_false_iff in Hlt. now rewrite Hlt.
Qed.

Lemma C4_witness :
  exists fc fr outs,
    generate_rows_geojson Samples.w0 Samples.args_east = Ok fc
    /\ frame Samples.args_east = Ok fr
    /\ row_outputs Samples.w0 Samples.args_east = Ok outs
    /\ features fc = flat_map (fun o => ro_path o :: ro_turns o) outs
                     ++ map ro_dest outs.
Proof.
  destruct (generate_rows_geojson Samples.w0 Samples.args_east) as [fc|e] eqn:H.
  - destruct (C4_destination_choice _ _ _ H) as (fr & outs & Hfr & Ho & Hf & _).
    exists fc, fr, outs. auto.
  - vm_compute in H. discriminate H.
Defined.

(** ** Order of the output *)

Lemma insert_row_sorted (x : Z * geom) (l : list (Z * geom)) :
  Sorted Z.le (map fst l) -> Sorted Z.le (map fst (insert_row x l)).
Proof.
  induction l as [|y l IH]; simpl; intros Hs.
  - repeat constructor.
  - destruct (Z.leb_spec (fst x) (fst y)) as [Hle|Hgt]; simpl.
    + constructor; [assumption | constructor; assumption].
    + inversion Hs as [|? ? Hs' Hhd]; subst.
      constructor; [auto|].
      destruct l as [|z l]; simpl.
      * constructor; lia.
      * destruct (Z.leb_spec (fst x) (fst z)); simpl; constructor;
          [lia | now inversion Hhd].
Qed.

Lemma sort_rows_sorted (l : list (Z * geom)) : Sorted Z.le (map fst (sort_rows l)).
Proof.
  induction l as [|x l IH]; simpl; [constructor | now apply insert_row_sorted].
Qed.



Section Order.

Context {L : GeoLib}.

Lemma plan_rows_indices a fr tp rows ps :
  plan_rows a fr tp rows = Ok ps -> map rp_index ps = map fst rows.
Proof.
  intros H. apply plan_rows_Forall2 in H.
  induction H as [|row p rows ps Hp _ IH]; simpl; [reflexivity|].
  destruct (row_plan_inv _ _ _ _ _ Hp) as (_ & Hi & _).
  now rewrite Hi, IH.
Qed.

Lemma row_outputs_indices w a fr outs :
  frame a = Ok fr -> row_outputs w a = Ok outs ->
  map ro_index outs = map fst (clipped_rows a fr).
Proof.
  intros Hfr Hout.
  destruct (row_outputs_inv _ _ _ Hout) as (fr' & tp & ps & Hfr' & _ & Hps & ->).
  rewrite Hfr in Hfr'; inversion Hfr'; subst fr'.
  rewrite <- (plan_rows_indices _ _ _ _ _ Hps).
  unfold ro_index. now rewrite <- map_map, emit_rows_plans.
Qed.

Lemma emit_row_kinds w t k p :
  is_path (ro_path (emit_row w t k p)) = true
  /\ forallb is_path (ro_turns (emit_row w t k p)) = true
  /\ is_destination (ro_dest (emit_row w t k p)) = true
  /\ map f_geometry (ro_turns (emit_row w t k p))
     = optional (rp_turn_a p) ++ optional (rp_turn_b p).
Proof.
  unfold emit_row; simpl.
  destruct (rp_turn_a p), (rp_turn_b p); simpl; auto.
Qed.

Lemma emit_rows_paths_not_destinations (w : World) (t : string)
    (ps : list RowPlan) :
  forall k, filter is_destination (path_features (emit_rows w t k ps)) = [].
Proof.
  unfold path_features.
  induction ps as [|p ps IH]; intros k; [reflexivity|].
  cbn [emit_rows flat_map]. rewrite filter_app, IH, app_nil_r.
  unfold emit_row; simpl. destruct (rp_turn_a p), (rp_turn_b p); reflexivity.
Qed.

Lemma emit_rows_destinations (w : World) (t : string) (ps : list RowPlan) :
  forall k, filter is_destination (destination_features (emit_rows w t k ps))
            = destination_features (emit_rows w t k ps).
Proof.
  unfold destination_features.
  induction ps as [|p ps IH]; intros k; [reflexivity|].
  cbn [emit_rows map filter].
  change (is_destination (ro_dest (emit_row w t k p))) with true.
  cbn iota. now rewrite IH.
Qed.

End Order.

Lemma assemble_destinations {L : GeoLib} (w : World) (t : string)
    (ps : list RowPlan) (k : nat) :
  filter is_destination (features (assemble (emit_rows w t k ps)))
  = map ro_dest (emit_rows w t k ps).
Proof.
  unfold assemble; simpl. rewrite filter_app.
  rewrite emit_rows_paths_not_destinations, emit_rows_destinations.
  reflexivity.
Qed.

(** With a turn template, the path of the second row comes after the two
    turns of the first row: the turn attachments are not listed after the
    row paths but in between them. *)
Lemma C8_turns_between_row_paths :
  exists fc outs o1 o2 rest turn_a turn_b tail,
    generate_rows_geojson Samples.w0 Samples.args_hook = Ok fc
    /\ row_outputs Samples.w0 Samples.args_hook = Ok outs
    /\ outs = o1 :: o2 :: rest
    /\ ro_turns o1 = [turn_a; turn_b]
    /\ features fc = ro_path o1 :: turn_a :: turn_b :: ro_path o2 :: tail.
Proof.
  destruct (generate_rows_geojson Samples.w0 Samples.args_hook) as [fc|e] eqn:H;
    [|vm_compute in H; discriminate H].
  destruct (row_outputs Samples.w0 Samples.args_hook) as [outs|e] eqn:Hout;
    [|vm_compute in Hout; discriminate Hout].
  vm_compute in H. inversion H; subst fc; clear H.
  vm_compute in Hout. inversion Hout; subst outs; clear Hout.
  do 8 eexists.
  split; [reflexivity|]. split; [reflexivity|]. split; [reflexivity|].
  split; reflexivity.
Qed.

(** C8 - As amended.  The output lists the Path features first and the
    Destination features after them.  The Path features come row by row,
    the rows in ascending index order: the path of a row, then its turn at
    the A end, then its turn at the B end, where attached, and only then the
    path of the next row.  The Destination features follow, one per row, in
    the same row order. *)
Theorem C8_paths_then_destinations {L : GeoLib}
    (w : World) (a : Args) (fc : FeatureCollection) :
  generate_rows_geojson w a = Ok fc ->
  exists fr outs,
    frame a = Ok fr
    /\ row_outputs w a = Ok outs
    /\ features fc = flat_map (fun o => ro_path o :: ro_turns o) outs
                     ++ map ro_dest outs
    /\ forallb is_path (flat_map (fun o => ro_path o :: ro_turns o) outs) = true
    /\ forallb is_destination (map ro_dest outs) = true
    /\ map ro_index outs = map fst (clipped_rows a fr)
    /\ Sorted Z.le (map ro_index outs)
    /\ forall o, In o outs ->
         f_geometry (ro_path o) = rp_path (ro_plan o)
         /\ map f_geometry (ro_turns o)
            = optional (rp_turn_a (ro_plan o)) ++ optional (rp_turn_b (ro_plan o)).
Proof.
  intros H.
  destruct (generate_inv _ _ _ H) as (outs & Hout & ->).
  destruct (row_outputs_inv _ _ _ Hout) as (fr & tp & ps & Hfr & _ & _ & Hemit).
  pose proof (row_outputs_indices _ _ _ _ Hfr Hout) as Hidx.
  assert (Hrows : forall o, In o outs ->
            exists k, o = emit_row w (utcnow w) k (ro_plan o)).
  { intros o Hin. rewrite Hemit in Hin.
    destruct (emit_rows_In _ _ _ _ _ Hin) as (k & Hk & _). now exists k. }
  exists fr, outs. repeat split; try assumption.
  - rewrite forallb_forall. intros f Hf.
    apply in_flat_map in Hf. destruct Hf as (o & Hin & Hf).
    destruct (Hrows o Hin) as (k & Ho).
    destruct (emit_row_kinds w (utcnow w) k (ro_plan o)) as (Hp & Ht & _).
    rewrite <- Ho in Hp, Ht.
    destruct Hf as [<- | Hf]; [assumption|].
    rewrite forallb_forall in Ht. now apply Ht.
  - rewrite forallb_forall. intros f Hf.
    apply in_map_iff in Hf. destruct Hf as (o & <- & Hin).
    destruct (Hrows o Hin) as (k & Ho).
    destruct (emit_row_kinds w (utcnow w) k (ro_plan o)) as (_ & _ & Hd & _).
    now rewrite <- Ho in Hd.
  - rewrite Hidx. apply sort_rows_sorted.
  - destruct (Hrows o H0) as (k & Ho). rewrite Ho. reflexivity.
  - destruct (Hrows o H0) as (k & Ho).
    destruct (emit_row_kinds w (utcnow w) k (ro_plan o)) as (_ & _ & _ & Hg).
    now rewrite <- Ho in Hg.
Qed.

Lemma C8_witness :
  exists fc fr outs,
    generate_rows_geojson Samples.w0 Samples.args_hook = Ok fc
    /\ frame Samples.args_hook = Ok fr
    /\ row_outputs Samples.w0 Samples.args_hook = Ok outs
    /\ features fc = flat_map (fun o => ro_path o :: ro_turns o) outs
                     ++ map ro_dest outs
    /\ Sorted Z.le (map ro_index outs).
Proof.
  destruct (generate_rows_geojson Samples.w0 Samples.args_hook) as [fc|e] eqn:H.
  - destruct (C8_paths_then_destinations _ _ _ H)
      as (fr & outs & Hfr & Ho & Hf & _ & _ & _ & Hs & _).
    exists fc, fr, outs. auto.
  - vm_compute in H. discriminate H.
Defined.

(** ** Turn attachment *)

Section Turns.

Context {L : GeoLib}.

Lemma is_some_or_else {A} (x y : option A) :
  is_some (or_else x y) = is_some x || is_some y.
Proof. destruct x, y; reflexivity. Qed.

Lemma prepare_turn_template_supplied lon lat t r :
  prepare_turn_template lon lat t = Ok r ->
  is_some (fst r) = supplied t /\ is_some (snd r) = supplied t.
Proof.
  unfold prepare_turn_template.
  destruct t as [[|fs|g|g]|]; simpl; intros H;
    try (inversion H; subst; simpl; auto; fail);
    (apply rbind_ok in H; destruct H as (g0 & _ & H);
     apply rbind_ok in H; destruct H as (an & _ & H);
     inversion H; subst; simpl; auto).
Qed.

Lemma templates_supplied a fr tp :
  templates a fr = Ok tp ->
  turn_a_attached a tp
  = String.eqb (upper (turn_side_a a)) "A"
    && (supplied (custom_turn_geojson a) || supplied (secondary_turn_geojson a))
  /\ turn_b_attached a tp
     = String.eqb (upper (turn_side_b a)) "B"
       && (supplied (custom_turn_geojson a) || supplied (secondary_turn_geojson a)).
Proof.
  unfold templates. intros H.
  apply rbind_ok in H; destruct H as (c & Hc & H).
  apply rbind_ok in H; destruct H as (s & Hs & H).
  inversion H; subst tp; clear H.
  destruct (prepare_turn_template_supplied _ _ _ _ Hc) as (Hc1 & Hc2).
  destruct (prepare_turn_template_supplied _ _ _ _ Hs) as (Hs1 & Hs2).
  unfold turn_a_attached, turn_b_attached; simpl.
  rewrite !is_some_or_else, Hc1, Hc2, Hs1, Hs2.
  split;
    destruct (String.eqb _ _), (supplied (custom_turn_geojson a)),
             (supplied (secondary_turn_geojson a)); reflexivity.
Qed.

End Turns.

(** ** Labels of split rows *)

Lemma clip_row_index {L : GeoLib} (fr : Frame) (row : Z * geom) :
  Forall (fun r => fst r = fst row) (clip_row fr row).
Proof.
  destruct row as [i line]; unfold clip_row; simpl.
  destruct (i =? 0); [repeat constructor|].
  destruct (is_empty _); [constructor|].
  destruct (sh_intersection line (area_rot fr)); try constructor.
  - destruct (Qlt_bool _ _); repeat constructor.
  - apply Forall_forall. intros r Hr. apply in_map_iff in Hr.
    now destruct Hr as (g & <- & _).
  - apply Forall_forall. intros r Hr. apply in_map_iff in Hr.
    now destruct Hr as (g & <- & _).
Qed.

(** C10 - Every clipped piece is a row of its own in the output and has its
    own Destination feature, also when several pieces share a row index: the
    Destination features of the output are those of the clipped pieces, one
    each and in their order.  The name of a destination is the label
    computed from the row index and the configuration, so destinations of
    pieces with the same index carry the same name. *)
Theorem C10_pieces_share_their_label {L : GeoLib}
    (w : World) (a : Args) (fc : FeatureCollection) :
  generate_rows_geojson w a = Ok fc ->
  exists fr outs,
    frame a = Ok fr
    /\ row_outputs w a = Ok outs
    /\ features fc = flat_map (fun o => ro_path o :: ro_turns o) outs
                     ++ map ro_dest outs
    /\ filter is_destination (features fc) = map ro_dest outs
    /\ map ro_index outs = map fst (clipped_rows a fr)
    /\ (forall row, Forall (fun r => fst r = fst row) (clip_row fr row))
    /\ (forall o, In o outs ->
          exists label,
            row_label a (ro_index o) = Ok label
            /\ is_destination (ro_dest o) = true
            /\ dest_name (ro_dest o) = Some label)
    /\ (forall o1 o2, In o1 outs -> In o2 outs -> ro_index o1 = ro_index o2 ->
          dest_name (ro_dest o1) = dest_name (ro_dest o2)).
Proof.
  intros Hgen.
  destruct (generate_inv _ _ _ Hgen) as (outs & Hout & ->).
  destruct (row_outputs_inv _ _ _ Hout) as (fr & tp & ps & Hfr & _ & _ & Hemit).
  assert (Hname : forall o, In o outs ->
            exists label,
              row_label a (ro_index o) = Ok label
              /\ is_destination (ro_dest o) = true
              /\ dest_name (ro_dest o) = Some label).
  { intros o Hin.
    destruct (row_outputs_rows _ _ _ _ _ Hfr Hout Hin)
      as (tp' & row & k & _ & _ & Hplan & Ho).
    destruct (row_plan_inv _ _ _ _ _ Hplan) as (cs & Hi & _ & _ & _ & _ & Hl & _).
    exists (rp_label (ro_plan o)). unfold ro_index. rewrite Hi.
    split; [assumption|]. rewrite Ho; simpl. auto. }
  exists fr, outs.
  split; [exact Hfr|]. split; [exact Hout|]. split; [reflexivity|].
  split; [rewrite Hemit; apply assemble_destinations|].
  split; [now apply (row_outputs_indices w)|].
  split; [intros row; apply clip_row_index|].
  split; [exact Hname|].
  intros o1 o2 H1 H2 Heq.
  destruct (Hname _ H1) as (l1 & Hl1 & _ & ->).
  destruct (Hname _ H2) as (l2 & Hl2 & _ & ->).
  rewrite Heq in Hl1. congruence.
Qed.

(** On the notched field a row is cut in two; both pieces get a
    destination, at different places, and both destinations are named
    F02. *)
Lemma C10_witness :
  exists fc d1 d2,
    generate_rows_geojson Samples.w0 Samples.args_notched = Ok fc
    /\ In d1 (filter is_destination (features fc))
    /\ In d2 (filter is_destination (features fc))
    /\ f_geometry d1 <> f_geometry d2
    /\ dest_name d1 = Some "F02"
    /\ dest_name d2 = dest_name d1.
Proof.
  destruct (generate_rows_geojson Samples.w0 Samples.args_notched) as [fc|e] eqn:H;
    [|vm_compute in H; discriminate H].
  destruct (C10_pieces_share_their_label _ _ _ H)
    as (fr & outs & Hfr & Hout & _ & Hdest & _ & _ & _ & Hsame).
  destruct (nth_error outs 4) as [o1|] eqn:H1.
  2: { vm_compute in Hout. inversion Hout; subst outs. discriminate H1. }
  destruct (nth_error outs 5) as [o2|] eqn:H2.
  2: { vm_compute in Hout. inversion Hout; subst outs. discriminate H2. }
  exists fc, (ro_dest o1), (ro_dest o2).
  split; [reflexivity|].
  split; [rewrite Hdest; apply in_map; eapply nth_error_In; exact H1|].
  split; [rewrite Hdest; apply in_map; eapply nth_error_In; exact H2|].
  split; [|split].
  - vm_compute in Hout. inversion Hout; subst outs.
    vm_compute in H1, H2. inversion H1; inversion H2; subst.
    vm_compute. discriminate.
  - vm_compute in Hout. inversion Hout; subst outs.
    vm_compute in H1. inversion H1; subst. reflexivity.
  - apply Hsame; [eapply nth_error_In; eassumption ..|].
    vm_compute in Hout. inversion Hout; subst outs.
    vm_compute in H1, H2. inversion H1; inversion H2; subst. reflexivity.
Defined.

(** ** What the output depends on *)

(** Two invocations on the same input at the same clock reading differ:
    the feature identifiers are drawn at random. *)
Lemma C7_same_timestamp_different_output :
  utcnow Samples.w0 = utcnow Samples.w1
  /\ generate_rows_geojson Samples.w0 Samples.args_east
     <> generate_rows_geojson Samples.w1 Samples.args_east.
Proof.
  split; [reflexivity|].
  intros H. vm_compute in H. discriminate H.
Qed.

Section Determinism.

Context {L : GeoLib}.
Variables w1 w2 : World.

Lemma emit_row_erase (t : string) (k1 k2 : nat) (p : RowPlan) :
  map erase_id (ro_path (emit_row w1 t k1 p) :: ro_turns (emit_row w1 t k1 p))
  = map erase_id (ro_path (emit_row w2 t k2 p) :: ro_turns (emit_row w2 t k2 p))
  /\ erase_id (ro_dest (emit_row w1 t k1 p)) = erase_id (ro_dest (emit_row w2 t k2 p)).
Proof.
  unfold emit_row; simpl.
  destruct (rp_turn_a p), (rp_turn_b p); split; reflexivity.
Qed.

Lemma path_features_erase (t : string) (ps : list RowPlan) :
  forall k1 k2,
    map erase_id (path_features (emit_rows w1 t k1 ps))
    = map erase_id (path_features (emit_rows w2 t k2 ps)).
Proof.
  unfold path_features.
  induction ps as [|p ps IH]; intros k1 k2; [reflexivity|].
  cbn [emit_rows flat_map]. rewrite !map_app.
  rewrite (IH (k1 + draws p)%nat (k2 + draws p)%nat).
  now rewrite (proj1 (emit_row_erase t k1 k2 p)).
Qed.

Lemma destination_features_erase (t : string) (ps : list RowPlan) :
  forall k1 k2,
    map erase_id (destination_features (emit_rows w1 t k1 ps))
    = map erase_id (destination_features (emit_rows w2 t k2 ps)).
Proof.
  unfold destination_features.
  induction ps as [|p ps IH]; intros k1 k2; [reflexivity|].
  cbn [emit_rows map].
  rewrite (IH (k1 + draws p)%nat (k2 + draws p)%nat).
  now rewrite (proj2 (emit_row_erase t k1 k2 p)).
Qed.

Lemma emit_rows_ext (t : string) (ps : list RowPlan) :
  (forall k, uuid4 w1 k = uuid4 w2 k) ->
  forall k, emit_rows w1 t k ps = emit_rows w2 t k ps.
Proof.
  intros Hid. induction ps as [|p ps IH]; intros k; simpl; [reflexivity|].
  rewrite IH. unfold emit_row. now rewrite !Hid.
Qed.

End Determinism.

(** C7 - As amended.  The result depends on the arguments, on the clock
    reading taken inside the function, and on the random identifiers drawn
    for the features.  Two invocations with the same arguments and the same
    clock reading agree on everything except the feature identifiers; when
    the identifiers drawn agree as well, the results are equal. *)
Theorem C7_deterministic_up_to_identifiers {L : GeoLib}
    (w1 w2 : World) (a : Args) :
  utcnow w1 = utcnow w2 ->
  erase_ids (generate_rows_geojson w1 a) = erase_ids (generate_rows_geojson w2 a)
  /\ ((forall k, uuid4 w1 k = uuid4 w2 k) ->
      generate_rows_geojson w1 a = generate_rows_geojson w2 a).
Proof.
  intros Ht. rewrite !generate_assemble. unfold row_outputs. rewrite Ht.
  destruct (frame a) as [fr|e]; simpl; [|auto].
  destruct (templates a fr) as [tp|e]; simpl; [|auto].
  destruct (plan_rows a fr tp (clipped_rows a fr)) as [ps|e]; simpl; [|auto].
  split.
  - f_equal. rewrite !map_app.
    now rewrite (path_features_erase w1 w2 (utcnow w2) ps 0 0),
                (destination_features_erase w1 w2 (utcnow w2) ps 0 0).
  - intros Hid. now rewrite (emit_rows_ext w1 w2 (utcnow w2) ps Hid).
Qed.

Lemma C7_witness :
  utcnow Samples.w0 = utcnow Samples.w1
  /\ erase_ids (generate_rows_geojson Samples.w0 Samples.args_east)
     = erase_ids (generate_rows_geojson Samples.w1 Samples.args_east).
Proof.
  split; [reflexivity|].
  apply (C7_deterministic_up_to_identifiers Samples.w0 Samples.w1 Samples.args_east).
  reflexivity.
Defined.

(** ** The parameter [attach_turns_both_ends] *)

(** Two invocations at the same clock reading that differ in
    [attach_turns_both_ends] only: their outputs are not identical, since
    the feature identifiers are drawn at random. *)
Lemma C9_flag_changed_ids_differ :
  attach_turns_both_ends Samples.args_east = false
  /\ utcnow Samples.w0 = utcnow Samples.w1
  /\ generate_rows_geojson Samples.w0
       (with_attach_turns_both_ends true Samples.args_east)
     <> generate_rows_geojson Samples.w1 Samples.args_east.
Proof.
  split; [reflexivity|]. split; [reflexivity|].
  intros H. vm_compute in H. discriminate H.
Qed.

(** C9 - As amended.  The parameter [attach_turns_both_ends] is never read:
    of two invocations at the same clock reading that differ in it only, the
    outputs agree on everything except the feature identifiers, and are
    equal when the identifiers drawn agree as well.  Whether a row gets a
    turn at its A end is decided by [turn_side_a.upper() == "A"] and by a
    template having been supplied (the primary one, or else the secondary
    one); likewise at the B end with [turn_side_b.upper() == "B"]. *)
Theorem C9_attach_turns_both_ends_is_ignored {L : GeoLib}
    (w1 w2 : World) (a : Args) (b : bool) :
  utcnow w1 = utcnow w2 ->
  erase_ids (generate_rows_geojson w1 (with_attach_turns_both_ends b a))
  = erase_ids (generate_rows_geojson w2 a)
  /\ ((forall k, uuid4 w1 k = uuid4 w2 k) ->
      generate_rows_geojson w1 (with_attach_turns_both_ends b a)
      = generate_rows_geojson w2 a)
  /\ forall fc,
       generate_rows_geojson w1 (with_attach_turns_both_ends b a) = Ok fc ->
       exists outs,
         row_outputs w1 a = Ok outs
         /\ features fc = flat_map (fun o => ro_path o :: ro_turns o) outs
                          ++ map ro_dest outs
         /\ forall o, In o outs ->
              let available :=
                supplied (custom_turn_geojson a)
                || supplied (secondary_turn_geojson a) in
              is_some (rp_turn_a (ro_plan o))
              = String.eqb (upper (turn_side_a a)) "A" && available
              /\ is_some (rp_turn_b (ro_plan o))
                 = String.eqb (upper (turn_side_b a)) "B" && available
              /\ map f_geometry (ro_turns o)
                 = optional (rp_turn_a (ro_plan o))
                   ++ optional (rp_turn_b (ro_plan o)).
Proof.
  intros Ht.
  change (generate_rows_geojson w1 (with_attach_turns_both_ends b a))
    with (generate_rows_geojson w1 a).
  split; [|split].
  - rewrite !generate_assemble. unfold row_outputs. rewrite Ht.
    destruct (frame a) as [fr|e]; simpl; [|reflexivity].
    destruct (templates a fr) as [tp|e]; simpl; [|reflexivity].
    destruct (plan_rows a fr tp (clipped_rows a fr)) as [ps|e]; simpl;
      [|reflexivity].
    f_equal. rewrite !map_app.
    now rewrite (path_features_erase w1 w2 (utcnow w2) ps 0 0),
                (destination_features_erase w1 w2 (utcnow w2) ps 0 0).
  - intros Hid. rewrite !generate_assemble. unfold row_outputs. rewrite Ht.
    destruct (frame a) as [fr|e]; simpl; [|reflexivity].
    destruct (templates a fr) as [tp|e]; simpl; [|reflexivity].
    destruct (plan_rows a fr tp (clipped_rows a fr)) as [ps|e]; simpl;
      [|reflexivity].
    now rewrite (emit_rows_ext w1 w2 (utcnow w2) ps Hid).
  - intros fc Hgen.
    destruct (generate_inv _ _ _ Hgen) as (outs & Hout & ->).
    exists outs. split; [exact Hout|]. split; [reflexivity|].
    intros o Hin available; subst available.
    destruct (row_outputs_inv _ _ _ Hout) as (fr & _ & _ & Hfr & _).
    destruct (row_outputs_rows _ _ _ _ _ Hfr Hout Hin)
      as (tp & row & k & Htp & _ & Hplan & Ho).
    destruct (row_plan_inv _ _ _ _ _ Hplan)
      as (cs & _ & _ & _ & _ & _ & _ & _ & _ & Ha & Hb).
    destruct (templates_supplied _ _ _ Htp) as (Hta & Htb).
    rewrite Ha, Hb, Hta, Htb. repeat split.
    destruct (emit_row_kinds w1 (utcnow w1) k (ro_plan o)) as (_ & _ & _ & Hg).
    now rewrite <- Ho in Hg.
Qed.

Lemma C9_witness :
  utcnow Samples.w0 = utcnow Samples.w1
  /\ erase_ids (generate_rows_geojson Samples.w0
                  (with_attach_turns_both_ends true Samples.args_hook))
     = erase_ids (generate_rows_geojson Samples.w1 Samples.args_hook)
  /\ exists fc,
       generate_rows_geojson Samples.w0
         (with_attach_turns_both_ends true Samples.args_hook) = Ok fc.
Proof.
  assert (Ht : utcnow Samples.w0 = utcnow Samples.w1) by reflexivity.
  destruct (C9_attach_turns_both_ends_is_ignored Samples.w0 Samples.w1
              Samples.args_hook true Ht) as (He & _ & _).
  split; [exact Ht|]. split; [exact He|].
  destruct (generate_rows_geojson Samples.w0
              (with_attach_turns_both_ends true Samples.args_hook)) as [fc|e] eqn:H.
  - exists fc. reflexivity.
  - vm_compute in H. discriminate H.
Defined.

(** ** Turn templates without geometry *)

(** A FeatureCollection with an empty feature list as the primary template:
    the invocation raises, although the same input without the template
    yields rows. *)
Lemma C6_empty_feature_list_aborts :
  custom_turn_geojson Samples.args_no_features = Some (TFeatureCollection [])
  /\ generate_rows_geojson Samples.w0 Samples.args_no_features = Raise IndexError
  /\ exists fc, generate_rows_geojson Samples.w0 Samples.args_east = Ok fc
                /\ List.length (features fc) = 20%nat.
Proof.
  split; [reflexivity|]. split; [vm_compute; reflexivity|].
  destruct (generate_rows_geojson Samples.w0 Samples.args_east) as [fc|e] eqn:H;
    vm_compute in H; [|discriminate H].
  exists fc. split; [reflexivity|]. inversion H; reflexivity.
Qed.

Lemma prepare_turn_template_unreadable {L : GeoLib} lon lat t :
  unreadable t = true -> exists e, prepare_turn_template lon lat t = Raise e.
Proof.
  unfold prepare_turn_template, unreadable, no_geometry, shape.
  destruct t as [[|[|[[| [|] | [|] | | | ]|] fs]|[[| [|] | [|] | | | ]|]|[[| [|] | [|] | | | ]|]]|];
    simpl; intros H; try discriminate H; eauto;
    destruct (sh_valid _); simpl; eauto.
Qed.

(** C6 - As amended.  A template that is the empty object counts as absent:
    the result is that of the same input without it.  A supplied template
    from which no geometry with an anchor can be read (an empty feature
    list, a feature or object without readable geometry, a line or polygon
    without coordinates) makes the whole invocation raise: no feature is
    returned. *)
Theorem C6_unreadable_template_aborts {L : GeoLib} (w : World) (a : Args) :
  (forall s, generate_rows_geojson w (with_turn_templates (Some TEmpty) s a)
             = generate_rows_geojson w (with_turn_templates None s a))
  /\ (forall c, generate_rows_geojson w (with_turn_templates c (Some TEmpty) a)
                = generate_rows_geojson w (with_turn_templates c None a))
  /\ (unreadable (custom_turn_geojson a) = true
      \/ unreadable (secondary_turn_geojson a) = true ->
      exists e, generate_rows_geojson w a = Raise e).
Proof.
  split; [reflexivity|]. split; [reflexivity|].
  intros H. unfold generate_rows_geojson.
  destruct (frame a) as [fr|e]; simpl; [|eauto].
  destruct H as [H|H].
  - destruct (prepare_turn_template_unreadable (center_lon fr) (center_lat fr) _ H)
      as (e & ->). simpl; eauto.
  - destruct (prepare_turn_template _ _ (custom_turn_geojson a)); simpl; [|eauto].
    destruct (prepare_turn_template_unreadable (center_lon fr) (center_lat fr) _ H)
      as (e & ->). simpl; eauto.
Qed.

Lemma C6_witness :
  (unreadable (custom_turn_geojson Samples.args_no_features) = true
   \/ unreadable (secondary_turn_geojson Samples.args_no_features) = true)
  /\ exists e, generate_rows_geojson Samples.w0 Samples.args_no_features = Raise e.
Proof.
  assert (H : unreadable (custom_turn_geojson Samples.args_no_features) = true
              \/ unreadable (secondary_turn_geojson Samples.args_no_features) = true)
    by (left; reflexivity).
  split; [exact H|].
  exact (proj2 (proj2 (C6_unreadable_template_aborts Samples.w0
                         Samples.args_no_features)) H).
Defined.

(** ** The row family *)

Lemma In_range (a b i : Z) : In i (range a b) <-> a <= i < b.
Proof.
  unfold range. rewrite in_map_iff. split.
  - intros (k & <- & Hk). apply in_seq in Hk. lia.
  - intros H. exists (Z.to_nat (i - a)). split; [lia|].
    apply in_seq. lia.
Qed.

Lemma NoDup_range (a b : Z) : NoDup (range a b).
Proof.
  unfold range. apply NoDup_map_NoDup_ForallPairs; [|apply seq_NoDup].
  intros x y _ _ H. lia.
Qed.

Section Family.

Context {L : GeoLib}.

Lemma shape_ok (g g' : geom) :
  shape (Some g) = Ok g' -> sh_valid g = true /\ g' = g.
Proof.
  unfold shape. destruct (sh_valid g); intros H; inversion H; auto.
Qed.

(** What a frame records, read off the code of [frame]. *)
Lemma frame_inv (a : Args) (fr : Frame) :
  frame a = Ok fr ->
  ab_rot fr = _rotate (_to_utm (ab_feature a) (center_lon fr) (center_lat fr))
                (- angle_deg fr) (rotation_origin fr)
  /\ area_rot fr = _rotate (_to_utm (area_feature a) (center_lon fr) (center_lat fr))
                     (- angle_deg fr) (rotation_origin fr)
  /\ coords (ab_rot fr) = Ok (ab_rot_coords fr)
  /\ first_item (ab_rot_coords fr) = Ok (a_rot fr)
  /\ last_item (ab_rot_coords fr) = Ok (b_rot fr)
  /\ reference_y fr = fl (fl (snd (a_rot fr) + snd (b_rot fr)) / 2)%Q
  /\ bounds (area_rot fr) = Some (minx fr, miny fr, maxx fr, maxy fr)
  /\ pad fr = fl (fl (maxx fr - minx fr) * 2)%Q
  /\ rows_below fr
     = Qceiling (fl (fl (reference_y fr - miny fr) / spacing_m a)) + 2
  /\ rows_above fr
     = Qceiling (fl (fl (maxy fr - reference_y fr) / spacing_m a)) + 2.
Proof.
  unfold frame. intros H.
  apply rbind_ok in H; destruct H as (ar & Har & H).
  apply rbind_ok in H; destruct H as (ab & Hab & H).
  apply shape_ok in Har. destruct Har as (_ & ->).
  apply shape_ok in Hab. destruct Hab as (_ & ->).
  destruct (is_empty (ab_feature a)); [discriminate H|].
  apply rbind_ok in H; destruct H as (mc & Hmc & H).
  apply rbind_ok in H; destruct H as (A & HA & H).
  apply rbind_ok in H; destruct H as (B & HB & H).
  apply rbind_ok in H; destruct H as (rc & Hrc & H).
  apply rbind_ok in H; destruct H as (c0 & Hc0 & H).
  apply rbind_ok in H; destruct H as (c1 & Hc1 & H).
  destruct (Qeq_bool (spacing_m a) 0); [discriminate H|].
  destruct (bounds _) as [[[[x0 y0] x1] y1]|] eqn:Hb; [|discriminate H].
  inversion H; subst fr; clear H; simpl.
  repeat split; assumption.
Qed.


End Family.

(** Line 220 in binary64.  The reference height 38.73895746110226 and the
    spacing 10 are floats; the height of candidate 9 is the float
    128.73895746110225, which is not the number refY + 9 * 10, and
    candidates 8 and 9 are not 10 apart.  The kernel's binary64 addition and
    multiplication give the same height. *)
Lemma C1_row_height_is_rounded :
  let refY := (2726011787289713 # 70368744177664)%Q in
  let s := 10%Q in
  let y8 := @y_pos Binary64.arith refY s 8 in
  let y9 := @y_pos Binary64.arith refY s 9 in
  Binary64.Q_of_float 0x1.35e96287848e2p+5%float = Some refY
  /\ Binary64.Q_of_float (0x1.35e96287848e2p+5 + 9 * 10)%float = Some y9
  /\ ~ (y9 == refY + 9 * s)%Q
  /\ ~ (y9 - y8 == s)%Q.
Proof.
  cbv zeta.
  split; [vm_compute; reflexivity|]. split; [vm_compute; reflexivity|].
  split; intros H; vm_compute in H; discriminate H.
Qed.

(** C1 - As amended.  For an input on which the frame is set up, with
    spacing s > 0, every operation being the program's floating-point one
    (its exact result rounded by [fl]): the reference height is
    fl(fl(y0 + y1) / 2) for the first and the last coordinate of the aligned
    reference line; rowsBelow and rowsAbove are ceil(fl(fl(refY - miny) / s))
    + 2 and ceil(fl(fl(maxy - refY) / s)) + 2 over the bounds of the aligned
    boundary; the candidates are indexed by exactly the integers of
    [-rowsBelow, rowsAbove], each once; the candidate of index 0 enters the
    clipped rows as the aligned reference line itself; every generated line is
    horizontal at y = fl(refY + fl(i * s)), from fl(minx - pad) to
    fl(maxx + pad) with pad = fl(fl(maxx - minx) * 2). *)
Theorem C1_row_family {L : GeoLib} (a : Args) (fr : Frame) :
  frame a = Ok fr -> (0 < spacing_m a)%Q ->
  let s := spacing_m a in
  ab_rot fr = _rotate (_to_utm (ab_feature a) (center_lon fr) (center_lat fr))
                (- angle_deg fr) (rotation_origin fr)
  /\ area_rot fr = _rotate (_to_utm (area_feature a) (center_lon fr) (center_lat fr))
                     (- angle_deg fr) (rotation_origin fr)
  /\ coords (ab_rot fr) = Ok (ab_rot_coords fr)
  /\ first_item (ab_rot_coords fr) = Ok (a_rot fr)
  /\ last_item (ab_rot_coords fr) = Ok (b_rot fr)
  /\ reference_y fr = fl (fl (snd (a_rot fr) + snd (b_rot fr)) / 2)%Q
  /\ bounds (area_rot fr) = Some (minx fr, miny fr, maxx fr, maxy fr)
  /\ pad fr = fl (fl (maxx fr - minx fr) * 2)%Q
  /\ rows_below fr = Qceiling (fl (fl (reference_y fr - miny fr) / s)) + 2
  /\ rows_above fr = Qceiling (fl (fl (maxy fr - reference_y fr) / s)) + 2
  /\ NoDup (map fst (row_lines_with_index a fr))
  /\ (forall i, In i (map fst (row_lines_with_index a fr))
                <-> - rows_below fr <= i <= rows_above fr)
  /\ (forall i line, In (i, line) (row_lines_with_index a fr) ->
        (i = 0 -> clip_row fr (i, line) = [(0, ab_rot fr)])
        /\ line = LineString
                    [(fl (minx fr - pad fr)%Q,
                      fl (reference_y fr + fl (inject_Z i * s))%Q);
                     (fl (maxx fr + pad fr)%Q,
                      fl (reference_y fr + fl (inject_Z i * s))%Q)]).
Proof.
  intros Hfr Hs s; subst s.
  destruct (frame_inv _ _ Hfr)
    as (Hab & Har & Hcs & Hfirst & Hlast & Hy & Hb & Hpad & Hbelow & Habove).
  assert (Hidx : map fst (row_lines_with_index a fr)
                 = range (- rows_below fr) (rows_above fr + 1)).
  { unfold row_lines_with_index. rewrite map_map; simpl. apply map_id. }
  split; [exact Hab|]. split; [exact Har|]. split; [exact Hcs|].
  split; [exact Hfirst|]. split; [exact Hlast|]. split; [exact Hy|].
  split; [exact Hb|]. split; [exact Hpad|]. split; [exact Hbelow|].
  split; [exact Habove|].
  split; [rewrite Hidx; apply NoDup_range|].
  split.
  - intros i. rewrite Hidx, In_range. lia.
  - intros i line Hin. split.
    + intros ->. reflexivity.
    + unfold row_lines_with_index in Hin. apply in_map_iff in Hin.
      destruct Hin as (j & Hj & _). inversion Hj; subst. reflexivity.
Qed.

Lemma C1_witness :
  exists fr,
    frame Samples.args_east = Ok fr
    /\ (0 < spacing_m Samples.args_east)%Q
    /\ (forall i, In i (map fst (row_lines_with_index Samples.args_east fr))
                  <-> - rows_below fr <= i <= rows_above fr).
Proof.
  destruct (frame Samples.args_east) as [fr|e] eqn:Hfr;
    [|vm_compute in Hfr; discriminate Hfr].
  assert (Hs : (0 < spacing_m Samples.args_east)%Q) by reflexivity.
  destruct (C1_row_family _ _ Hfr Hs)
    as (_ & _ & _ & _ & _ & _ & _ & _ & _ & _ & _ & Hin & _).
  exists fr. split; [reflexivity|]. split; [exact Hs|]. exact Hin.
Defined.

(** ** Orientation *)

(** What [orient] does: the test compares the x of A and B as projected,
    before the alignment, with the x of the segment ends in the aligned
    frame. *)
Lemma orient_spec {L : GeoLib} (fr : Frame) (seg seg' : geom) :
  orient fr seg = Ok seg' ->
  exists cs c0 c1,
    coords seg = Ok cs /\ first_item cs = Ok c0 /\ last_item cs = Ok c1
    /\ let reversed :=
         (((ax fr < bx fr) /\ (fst c1 < fst c0))
          \/ ((bx fr < ax fr) /\ (fst c0 < fst c1)))%Q in
       (reversed -> seg' = LineString (rev cs)) /\ (~ reversed -> seg' = seg).
Proof.
  unfold orient. intros H.
  apply rbind_ok in H; destruct H as (cs & Hcs & H).
  apply rbind_ok in H; destruct H as (c0 & Hc0 & H).
  apply rbind_ok in H; destruct H as (c1 & Hc1 & H).
  exists cs, c0, c1. repeat split; try assumption.
  - intros Hrev.
    assert (Hb : (Qlt_bool (ax fr) (bx fr) && Qlt_bool (fst c1) (fst c0)
                  || Qlt_bool (bx fr) (ax fr) && Qlt_bool (fst c0) (fst c1)) = true).
    { apply orb_true_iff. rewrite !andb_true_iff, !Qlt_bool_iff. exact Hrev. }
    rewrite Hb in H. now inversion H.
  - intros Hrev.
    destruct (Qlt_bool (ax fr) (bx fr) && Qlt_bool (fst c1) (fst c0)
              || Qlt_bool (bx fr) (ax fr) && Qlt_bool (fst c0) (fst c1)) eqn:Hb.
    + exfalso. apply Hrev.
      apply orb_true_iff in Hb. rewrite !andb_true_iff, !Qlt_bool_iff in Hb.
      exact Hb.
    + now inversion H.
Qed.

(** C3 - The program at a reference line drawn from east to west (B west of
    A before the alignment).  In the aligned frame the reference line runs
    in the direction of increasing x, and so does row 0, which is that
    line: the two signs agree.  The program reverses row 0 all the same, and
    every row it emits runs in the direction of decreasing x in the aligned
    frame, against the aligned reference direction. *)
Theorem C3_westward_reference_reverses_rows :
  exists fr outs,
    frame Samples.args_west = Ok fr
    /\ row_outputs Samples.w0 Samples.args_west = Ok outs
    /\ (bx fr < ax fr)%Q
    /\ (0 < fst (b_rot fr) - fst (a_rot fr))%Q
    /\ In (0, ab_rot fr) (clipped_rows Samples.args_west fr)
    /\ coords (ab_rot fr) = Ok [a_rot fr; b_rot fr]
    /\ orient fr (ab_rot fr) = Ok (LineString [b_rot fr; a_rot fr])
    /\ outs <> []
    /\ Forall (fun o => (fst (rp_p2 (ro_plan o)) - fst (rp_p1 (ro_plan o)) < 0)%Q)
              outs.
Proof.
  destruct (frame Samples.args_west) as [fr|e] eqn:Hfr;
    [|vm_compute in Hfr; discriminate Hfr].
  destruct (row_outputs Samples.w0 Samples.args_west) as [outs|e] eqn:Hout;
    [|vm_compute in Hout; discriminate Hout].
  exists fr, outs.
  vm_compute in Hfr. inversion Hfr; subst fr; clear Hfr.
  vm_compute in Hout. inversion Hout; subst outs; clear Hout.
  split; [reflexivity|]. split; [reflexivity|].
  split; [vm_compute; reflexivity|].
  split; [vm_compute; reflexivity|].
  split; [vm_compute; do 6 right; left; reflexivity|].
  split; [vm_compute; reflexivity|].
  split; [vm_compute; reflexivity|].
  split; [discriminate|].
  repeat constructor.
Qed.

(** ** Degenerate reference lines: the program returns *)





Section Totality.

Context {L : GeoLib}.
Hypothesis empty_line_length :
  Qlt_bool SNAP_TOLERANCE (sh_length (LineString [])) = false.














End Totality.





(** * Further properties of the program *)

(** ** UTM zones *)

Lemma Qtruncate_nonneg (q : Q) :
  (0 <= q)%Q -> Qtruncate q = Qfloor q.
Proof.
  intros Hq. unfold Qtruncate, Qfloor. destruct q as [n d]; simpl.
  apply Z.quot_div_nonneg; [|lia].
  unfold Qle in Hq; simpl in Hq. lia.
Qed.

Section Zones.

Context {F : FloatArith} {FL : FloatLaws F}.

Lemma fl_proper (x y : Q) : (x == y)%Q -> (fl x == fl y)%Q.
Proof.
  intros H. apply Qle_antisym; apply fl_le; rewrite H; apply Qle_refl.
Qed.

Lemma fl_at_int (x : Q) (n : Z) :
  Z.abs n <= 2 ^ 53 -> (x == inject_Z n)%Q -> (fl x == inject_Z n)%Q.
Proof. intros Hn Hx. rewrite (fl_proper _ _ Hx). now apply fl_int. Qed.

Lemma fl_nonneg (x : Q) : (0 <= x)%Q -> (0 <= fl x)%Q.
Proof.
  intros Hx. rewrite <- (fl_int 0) by (simpl; lia). now apply fl_le.
Qed.

(** The rounded quotient of line 16, [(lon + 180) / 6]. *)
Lemma zone_quotient_le (lon lon' : Q) :
  (lon <= lon')%Q ->
  (fl (fl (lon + 180) / 6) <= fl (fl (lon' + 180) / 6))%Q.
Proof.
  intros H. apply fl_le. apply Qmult_le_compat_r; [|vm_compute; discriminate].
  apply fl_le. lra.
Qed.

Lemma zone_quotient_at_edge (k : Z) :
  0 <= k <= 60 ->
  (fl (fl (inject_Z (-180 + 6 * k) + 180) / 6) == inject_Z k)%Q.
Proof.
  intros Hk.
  assert (H1 : (fl (inject_Z (-180 + 6 * k) + 180) == inject_Z (6 * k))%Q).
  { apply fl_at_int; [lia|].
    rewrite !inject_Z_plus, !inject_Z_mult. simpl inject_Z. ring. }
  apply fl_at_int; [lia|].
  rewrite H1, inject_Z_mult. change (inject_Z 6) with 6%Q. field.
Qed.

Lemma utm_zone_le (lon lon' : Q) :
  (-180 <= lon)%Q -> (lon <= lon')%Q -> utm_zone lon <= utm_zone lon'.
Proof.
  intros Hlo Hle. unfold utm_zone.
  assert (H0 : (0 <= fl (fl (lon + 180) / 6))%Q).
  { apply fl_nonneg. apply Qle_shift_div_l; [reflexivity|].
    rewrite Qmult_0_l. apply fl_nonneg. lra. }
  pose proof (zone_quotient_le lon lon' Hle) as Hq.
  rewrite !Qtruncate_nonneg by lra.
  apply Z.add_le_mono_r. now apply Qfloor_resp_le.
Qed.

Lemma utm_zone_at_edge (k : Z) :
  0 <= k <= 60 -> utm_zone (inject_Z (-180 + 6 * k)) = k + 1.
Proof.
  intros Hk. unfold utm_zone.
  pose proof (zone_quotient_at_edge k Hk) as Hq.
  rewrite Qtruncate_nonneg.
  - rewrite (Qfloor_comp _ _ Hq), Qfloor_Z. reflexivity.
  - rewrite Hq. change 0%Q with (inject_Z 0). rewrite <- Zle_Qle. lia.
Qed.

End Zones.

(** The zone of [_get_utm_crs] never decreases with the longitude, and a
    longitude -180 + 6k, the western edge of a six-degree band, gets zone
    k + 1 exactly.  So every longitude of the band of index k (0 to 59),
    its edges included, gets zone k + 1 or k + 2: the zones of the longitudes
    of [-180, 180] are 1 to 61.  Rounding can lift a longitude just below
    the eastern edge of its band into the next zone, and does so in
    binary64: 179.99999999999997 is below 180 and gets zone 61.  The code is
    32600 + zone for a latitude >= 0 and 32700 + zone below. *)
Theorem utm_zone_bands {L : GeoLib} (lon lat : Q) (k : Z) :
  0 <= k <= 59 ->
  (inject_Z (-180 + 6 * k) <= lon)%Q ->
  (lon <= inject_Z (-180 + 6 * (k + 1)))%Q ->
  utm_zone (inject_Z (-180 + 6 * k)) = k + 1
  /\ utm_zone (inject_Z (-180 + 6 * (k + 1))) = k + 2
  /\ k + 1 <= utm_zone lon <= k + 2
  /\ (forall lon', (lon <= lon')%Q -> utm_zone lon <= utm_zone lon')
  /\ _get_utm_crs lon lat
     = ("EPSG:" ++ str ((if Qle_bool 0 lat then 32600 else 32700) + utm_zone lon))%string
  /\ ((6333186975989759 # 35184372088832 < 180)%Q
      /\ @utm_zone Binary64.arith (6333186975989759 # 35184372088832) = 61).
Proof.
  intros Hk Hlo Hhi.
  assert (Hwest : (-180 <= inject_Z (-180 + 6 * k))%Q).
  { change (-180)%Q with (inject_Z (-180)). rewrite <- Zle_Qle. lia. }
  assert (Hlon : (-180 <= lon)%Q) by (eapply Qle_trans; eassumption).
  pose proof (utm_zone_at_edge k ltac:(lia)) as He.
  pose proof (utm_zone_at_edge (k + 1) ltac:(lia)) as He'.
  pose proof (utm_zone_le _ _ Hwest Hlo) as H1.
  pose proof (utm_zone_le _ _ Hlon Hhi) as H2.
  split; [exact He|]. split; [rewrite He'; lia|].
  split; [lia|].
  split; [intros lon' Hle; now apply utm_zone_le|].
  split.
  - unfold _get_utm_crs. destruct (Qle_bool 0 lat); reflexivity.
  - split; vm_compute; reflexivity.
Qed.

Lemma utm_zone_bands_witness :
  0 <= 30 <= 59
  /\ (inject_Z (-180 + 6 * 30) <= 3 # 2)%Q
  /\ (3 # 2 <= inject_Z (-180 + 6 * (30 + 1)))%Q
  /\ 31 <= utm_zone (3 # 2) <= 32
  /\ _get_utm_crs (3 # 2) (48 # 1) = "EPSG:32631".
Proof.
  assert (Hk : 0 <= 30 <= 59) by lia.
  assert (Hlo : (inject_Z (-180 + 6 * 30) <= 3 # 2)%Q) by (vm_compute; discriminate).
  assert (Hhi : (3 # 2 <= inject_Z (-180 + 6 * (30 + 1)))%Q)
    by (vm_compute; discriminate).
  destruct (utm_zone_bands (3 # 2) (48 # 1) 30 Hk Hlo Hhi)
    as (_ & _ & Hz & _ & Hcode & _).
  split; [exact Hk|]. split; [exact Hlo|]. split; [exact Hhi|].
  split; [exact Hz|]. rewrite Hcode. reflexivity.
Defined.

(** The longitude is neither wrapped nor clamped: from 180 degrees on the
    zone number exceeds the sixty zones of UTM. *)
Theorem utm_zone_beyond_antimeridian {L : GeoLib} (lon : Q) :
  (180 <= lon)%Q -> 61 <= utm_zone lon.
Proof.
  intros Hlon.
  assert (H180 : (-180 <= inject_Z (-180 + 6 * 60))%Q) by (vm_compute; discriminate).
  assert (Hle : (inject_Z (-180 + 6 * 60) <= lon)%Q) by exact Hlon.
  pose proof (utm_zone_le _ _ H180 Hle) as H.
  rewrite (utm_zone_at_edge 60) in H by lia. lia.
Qed.

Lemma utm_zone_beyond_antimeridian_witness :
  (180 <= 180)%Q /\ 61 <= utm_zone 180.
Proof.
  assert (H : (180 <= 180)%Q) by (vm_compute; discriminate).
  split; [exact H | exact (utm_zone_beyond_antimeridian 180 H)].
Defined.

(** ** Labels *)

Lemma to_int_not_nil (z : Z) :
  Z.to_int z <> Decimal.Pos Decimal.Nil /\ Z.to_int z <> Decimal.Neg Decimal.Nil.
Proof.
  pose proof (DecimalZ.to_of (Z.to_int z)) as H. rewrite DecimalZ.of_to in H.
  split; intros E; rewrite E in H; discriminate H.
Qed.

Lemma int_of_str (z : Z) : NilZero.int_of_string (str z) = Some (Z.to_int z).
Proof.
  unfold str. destruct (to_int_not_nil z) as (Hp & Hn). now apply NilZero.isi.
Qed.

Lemma str_inj (n m : Z) : str n = str m -> n = m.
Proof.
  intros H. apply DecimalZ.to_int_inj.
  pose proof (int_of_str n) as Hn. rewrite H, int_of_str in Hn. now inversion Hn.
Qed.

Lemma append_inj_r (s a b : string) : (s ++ a = s ++ b)%string -> a = b.
Proof.
  induction s as [|c s IH]; simpl; intros H; [assumption|].
  inversion H. auto.
Qed.

Lemma padded_not_str (n m : Z) :
  0 <= n < 10 -> ("0" ++ str n)%string = str m -> 0 <= m < 10.
Proof.
  intros Hn H.
  apply (f_equal NilZero.int_of_string) in H. rewrite int_of_str in H.
  assert (Hm : m = Z.of_int (Z.to_int m)) by (symmetry; apply DecimalZ.of_to).
  remember (Z.to_int m) as t eqn:Ht. clear Ht.
  remember (Z.to_nat n) as digit eqn:Hdigit.
  assert (En : n = Z.of_nat digit) by lia.
  assert (Hlt : (digit < 10)%nat) by lia.
  subst n. clear Hdigit Hn.
  do 10 (destruct digit as [|digit];
         [vm_compute in H; inversion H as [E]; rewrite <- E in Hm;
          vm_compute in Hm; lia|]).
  lia.
Qed.

Lemma format_02d_inj (n m : Z) : format_02d n = format_02d m -> n = m.
Proof.
  unfold format_02d.
  destruct ((0 <=? n) && (n <? 10))%bool eqn:Hn;
    destruct ((0 <=? m) && (m <? 10))%bool eqn:Hm; intros H.
  - apply str_inj. now apply (append_inj_r "0").
  - apply padded_not_str in H; [|lia]. lia.
  - symmetry in H. apply padded_not_str in H; [|lia]. lia.
  - now apply str_inj.
Qed.

(** For a fixed configuration, two row indices with the same label are the
    same index: [_label_sequence] never gives one label to two rows, with
    or without zero padding, with a constant or a cycling letter. *)
Theorem label_sequence_injective (s : string) (n i j : Z) (zp keep : bool)
    (label : string) :
  _label_sequence s n i zp keep = Ok label ->
  _label_sequence s n j zp keep = Ok label ->
  i = j.
Proof.
  unfold _label_sequence. intros Hi Hj.
  assert (Hnum : (if zp then format_02d (n + i) else str (n + i))
                 = (if zp then format_02d (n + j) else str (n + j)) -> i = j).
  { destruct zp; intros H; [apply format_02d_inj in H | apply str_inj in H]; lia. }
  destruct keep; simpl in Hi, Hj.
  - inversion Hi as [E1]. rewrite <- E1 in Hj. inversion Hj as [E2].
    apply Hnum. now apply append_inj_r in E2.
  - destruct (ord (upper s)) as [o|e]; simpl in Hi, Hj; [|discriminate Hi].
    inversion Hi as [E1]. rewrite <- E1 in Hj. inversion Hj as [E2].
    apply Hnum. symmetry. assumption.
Qed.

Lemma label_sequence_injective_witness :
  _label_sequence "f" 1 (-3) true false = Ok "C-2"
  /\ (forall j, _label_sequence "f" 1 j true false = Ok "C-2" -> -3 = j).
Proof.
  assert (H : _label_sequence "f" 1 (-3) true false = Ok "C-2") by reflexivity.
  split; [exact H|].
  intros j Hj. exact (label_sequence_injective "f" 1 (-3) j true false "C-2" H Hj).
Defined.

Lemma upper_length (s : string) : String.length (upper s) = String.length s.
Proof. induction s as [|c s IH]; simpl; [reflexivity | now rewrite IH]. Qed.

(** On an ASCII start letter, [_label_sequence] returns a label exactly
    when the letter is kept or the start letter is a single character;
    otherwise [ord] raises a TypeError.  With a cycling letter the letter
    part is always one of the capitals A..Z, whatever the start character,
    and repeats every 26 rows. *)
Theorem label_sequence_letter (s : string) (n i : Z) (zp keep : bool) :
  ascii_text s = true ->
  ((exists label, _label_sequence s n i zp keep = Ok label)
   <-> (keep = true \/ String.length s = 1%nat))
  /\ (keep = false -> String.length s <> 1%nat ->
      _label_sequence s n i zp keep = Raise TypeError)
  /\ (keep = false -> forall c : ascii, s = String c EmptyString ->
      let code := (Z.of_nat (nat_of_ascii (upper_ascii c)) - 65 + i) mod 26 + 65 in
      65 <= code <= 90
      /\ _label_sequence s n i zp false
         = Ok (chr code ++ (if zp then format_02d (n + i) else str (n + i)))%string
      /\ forall k, (Z.of_nat (nat_of_ascii (upper_ascii c)) - 65 + (i + 26 * k)) mod 26 + 65
                   = code).
Proof.
  intros _.
  assert (Hraise : keep = false -> String.length s <> 1%nat ->
                   _label_sequence s n i zp keep = Raise TypeError).
  { intros -> Hlen. unfold _label_sequence.
    pose proof (upper_length s) as Hu.
    destruct (upper s) as [|c [|c' u]]; simpl in *; try reflexivity.
    congruence. }
  split; [split|split].
  - intros (label & H). destruct keep; [now left|right].
    destruct (Nat.eq_dec (String.length s) 1) as [E|E]; [assumption|].
    rewrite (Hraise eq_refl E) in H. discriminate H.
  - intros [-> | Hlen].
    + unfold _label_sequence; simpl. eauto.
    + destruct s as [|c [|c' s]]; try discriminate Hlen.
      unfold _label_sequence. destruct keep; simpl; eauto.
  - exact Hraise.
  - intros -> c -> code. subst code. repeat split.
    + pose proof (Z.mod_pos_bound (Z.of_nat (nat_of_ascii (upper_ascii c)) - 65 + i) 26).
      lia.
    + pose proof (Z.mod_pos_bound (Z.of_nat (nat_of_ascii (upper_ascii c)) - 65 + i) 26).
      lia.
    + intros k.
      replace (Z.of_nat (nat_of_ascii (upper_ascii c)) - 65 + (i + 26 * k))
        with (Z.of_nat (nat_of_ascii (upper_ascii c)) - 65 + i + k * 26) by lia.
      now rewrite Z.mod_add by lia.
Qed.

Lemma label_sequence_letter_witness :
  ascii_text "7" = true /\ ascii_text "fg" = true
  /\ _label_sequence "7" 1 30 false false = Ok "U31"
  /\ _label_sequence "fg" 1 30 false false = Raise TypeError.
Proof.
  assert (H7 : ascii_text "7" = true) by reflexivity.
  assert (Hfg : ascii_text "fg" = true) by reflexivity.
  destruct (label_sequence_letter "7" 1 30 false false H7) as (_ & _ & Hc).
  destruct (Hc eq_refl "7"%char eq_refl) as (_ & Hl & _).
  destruct (label_sequence_letter "fg" 1 30 false false Hfg) as (_ & Hr & _).
  split; [exact H7|]. split; [exact Hfg|].
  split; [rewrite Hl; reflexivity | apply Hr; [reflexivity | discriminate]].
Defined.

(** ** Turn attachment *)

(** [_attach_custom_turn] keeps the kind of the template and the number of
    its coordinates, and puts the anchor on the destination point: if the
    template starts at the anchor (as the templates prepared from points,
    lines and polygons do), the attached geometry starts at the destination
    point, for every angle and both flips, provided the library's rotation
    about the origin leaves the origin in place. *)
Theorem attach_puts_anchor_on_destination {L : GeoLib}
    (template : geom) (anchor dest : Coord) (angle : Q)
    (flip_h flip_v : bool) (rest : list Coord) :
  (forall ang c, (fst c == 0)%Q -> (snd c == 0)%Q ->
                 coord_eq (sh_rotate ang (0, 0)%Q c) (0, 0)%Q) ->
  all_coords template = anchor :: rest ->
  let attached := _attach_custom_turn template anchor dest angle flip_h flip_v in
  geom_type attached = geom_type template
  /\ exists c rest',
       all_coords attached = c :: rest'
       /\ coord_eq c dest
       /\ List.length rest' = List.length rest.
Proof.
  intros Hrot Hcs attached. subst attached.
  unfold _attach_custom_turn, translate, scale, _rotate.
  split.
  - destruct flip_h, flip_v; now rewrite !geom_type_map_geom.
  - assert (Hz : forall x : Q, (x + - x == 0)%Q) by (intros; ring).
    destruct flip_h, flip_v; rewrite !all_coords_map_geom, Hcs; simpl;
      eexists _, _; (split; [reflexivity|]); (split; [|now rewrite !length_map]);
      match goal with
      | |- coord_eq (fst (sh_rotate ?a ?o ?c) + _, _)%Q _ =>
          destruct (Hrot a c) as (Hx & Hy); simpl;
          [ rewrite ?Hz; ring | rewrite ?Hz; ring | ];
          split; simpl in *; [rewrite Hx | rewrite Hy]; ring
      end.
Qed.

Lemma exact_rotation_fixes_origin (ang : Q) (c : Coord) :
  (fst c == 0)%Q -> (snd c == 0)%Q ->
  coord_eq (sh_rotate ang (0, 0)%Q c) (0, 0)%Q.
Proof.
  destruct c as [x y]. cbn [fst snd]. intros Hx Hy.
  unfold coord_eq.
  change (sh_rotate ang (0, 0)%Q (x, y)) with (ExactPlane.rotate ang (0, 0)%Q (x, y)).
  unfold ExactPlane.rotate. cbn [fst snd].
  rewrite !Qred_correct, Hx, Hy. split; ring.
Qed.

Lemma attach_puts_anchor_on_destination_witness :
  let template := LineString [(3, 4); (8, 4); (8, 9)]%Q in
  all_coords template = [(3, 4); (8, 4); (8, 9)]%Q
  /\ exists c rest',
       all_coords (_attach_custom_turn template (3, 4)%Q (100, 50)%Q 90 true false)
       = c :: rest'
       /\ coord_eq c (100, 50)%Q.
Proof.
  intros template.
  assert (Hcs : all_coords template = (3, 4)%Q :: [(8, 4); (8, 9)]%Q) by reflexivity.
  split; [exact Hcs|].
  destruct (attach_puts_anchor_on_destination template (3, 4)%Q (100, 50)%Q 90
              true false _ exact_rotation_fixes_origin Hcs)
    as (_ & c & rest' & Hc & Heq & _).
  exists c, rest'. split; assumption.
Defined.

(** ** Finding the reference line among the clipped lines *)

Lemma find_user_line_from_spec {L : GeoLib} (u : Coord) (tol : Q)
    (lines : list geom) :
  forall start,
    match find_user_line_from u tol start lines with
    | Some idx =>
        (start <= idx)%nat
        /\ (exists line,
              nth_error lines (idx - start) = Some line
              /\ (sh_distance u (sh_centroid line) < tol)%Q)
        /\ forall j l, (j < idx - start)%nat -> nth_error lines j = Some l ->
                       ~ (sh_distance u (sh_centroid l) < tol)%Q
    | None =>
        Forall (fun l => ~ (sh_distance u (sh_centroid l) < tol)%Q) lines
    end.
Proof.
  induction lines as [|line rest IH]; intros start; simpl; [constructor|].
  destruct (Qlt_bool (sh_distance u (sh_centroid line)) tol) eqn:Hd.
  - split; [lia|]. rewrite Nat.sub_diag. split.
    + exists line. split; [reflexivity | now apply Qlt_bool_iff].
    + intros j l Hj. lia.
  - apply Qlt_bool_false_iff in Hd.
    specialize (IH (S start)).
    destruct (find_user_line_from u tol (S start) rest) as [idx|].
    + destruct IH as (Hle & (l0 & Hnth & Hl0) & Hbefore).
      split; [lia|].
      replace (idx - start)%nat with (S (idx - S start)) by lia.
      split; [exists l0; auto|].
      intros [|j] l Hj Hl; simpl in Hl.
      * now inversion Hl; subst.
      * apply (Hbefore j l); [lia | assumption].
    + now constructor.
Qed.

(** [_find_user_line_in_clipped] returns the index of the first clipped
    line whose centroid is closer than the tolerance to the centroid of the
    reference line: the line at that index is that close, no line before it
    is; it returns [None] exactly when no line is that close. *)
Theorem find_user_line_is_first_match {L : GeoLib}
    (user_line : geom) (clipped_lines : list geom) (tolerance : Q) :
  let close line :=
    (sh_distance (sh_centroid user_line) (sh_centroid line) < tolerance)%Q in
  (forall idx,
     _find_user_line_in_clipped user_line clipped_lines tolerance = Some idx ->
     (exists line, nth_error clipped_lines idx = Some line /\ close line)
     /\ forall j l, (j < idx)%nat -> nth_error clipped_lines j = Some l -> ~ close l)
  /\ (_find_user_line_in_clipped user_line clipped_lines tolerance = None
      <-> Forall (fun l => ~ close l) clipped_lines).
Proof.
  intros close. unfold _find_user_line_in_clipped.
  pose proof (find_user_line_from_spec (sh_centroid user_line) tolerance
                clipped_lines 0) as H.
  destruct (find_user_line_from _ _ 0 clipped_lines) as [idx|].
  - destruct H as (_ & Hat & Hbefore). rewrite Nat.sub_0_r in *.
    split.
    + intros i Hi. inversion Hi; subst i. split; assumption.
    + split; [discriminate|]. intros Hall.
      destruct Hat as (line & Hnth & Hclose).
      apply nth_error_In in Hnth. rewrite Forall_forall in Hall.
      exfalso. exact (Hall line Hnth Hclose).
  - split; [discriminate|]. split; auto.
Qed.

Lemma find_user_line_is_first_match_witness :
  let lines := [LineString [(0, 5); (100, 5)]; LineString [(20, 35); (80, 35)];
                LineString [(20, 35); (80, 35)]]%Q in
  _find_user_line_in_clipped (LineString [(20, 35); (80, 35)]%Q) lines 1
  = Some 1%nat
  /\ exists line, nth_error lines 1 = Some line
                  /\ (sh_distance (sh_centroid (LineString [(20, 35); (80, 35)]%Q))
                                  (sh_centroid line) < 1)%Q.
Proof.
  intros lines.
  assert (H : _find_user_line_in_clipped (LineString [(20, 35); (80, 35)]%Q) lines 1
              = Some 1%nat) by (vm_compute; reflexivity).
  split; [exact H|].
  exact (proj1 (proj1 (find_user_line_is_first_match
                         (LineString [(20, 35); (80, 35)]%Q) lines 1) _ H)).
Defined.

(** ** Snapping a point to a line *)

(** [_snap_point_to_line] returns the point itself or its projection on the
    line, and never moves the point by more than the tolerance (a point
    being at distance at most the tolerance from itself). *)
Theorem snap_moves_within_tolerance {L : GeoLib} {R : LinearRef}
    (point : Coord) (line : geom) (tolerance : Q) :
  (sh_distance point point <= tolerance)%Q ->
  let snapped := _snap_point_to_line point line tolerance in
  (sh_distance point snapped <= tolerance)%Q
  /\ (snapped = point
      \/ snapped = sh_interpolate line (sh_project line point))
  /\ ((tolerance < sh_distance point (sh_interpolate line (sh_project line point)))%Q
      -> snapped = point).
Proof.
  intros Hself snapped. subst snapped. unfold _snap_point_to_line.
  destruct (Qle_bool (sh_distance point
              (sh_interpolate line (sh_project line point))) tolerance) eqn:Hd.
  - apply Qle_bool_iff in Hd. repeat split; auto.
    intros Hlt. exfalso. apply (Qlt_not_le _ _ Hlt). exact Hd.
  - repeat split; auto.
Qed.

Lemma snap_moves_within_tolerance_witness :
  let line := LineString [(0, 0); (100, 0)]%Q in
  (sh_distance (30, 0)%Q (30, 0)%Q <= SNAP_TOLERANCE)%Q
  /\ _snap_point_to_line (30, 1 # 200)%Q line SNAP_TOLERANCE = (30, 0)%Q
  /\ (sh_distance (30, 0)%Q (_snap_point_to_line (30, 0)%Q line SNAP_TOLERANCE)
      <= SNAP_TOLERANCE)%Q.
Proof.
  intros line.
  assert (H : (sh_distance (30, 0)%Q (30, 0)%Q <= SNAP_TOLERANCE)%Q)
    by (vm_compute; discriminate).
  split; [exact H|]. split; [vm_compute; reflexivity|].
  exact (proj1 (snap_moves_within_tolerance (30, 0)%Q line SNAP_TOLERANCE H)).
Defined.

(** ** Inputs the program refuses *)



(** A reference geometry without a coordinate sequence of at least one
    coordinate (an empty line, a polygon, a multi-part geometry) makes
    [generate_rows_geojson] raise. *)
Theorem unusable_reference_raises {L : GeoLib} (w : World) (a : Args) :
  (forall c cs, coords (ab_feature a) <> Ok (c :: cs)) ->
  exists e, generate_rows_geojson w a = Raise e.
Proof.
  intros Hno. unfold generate_rows_geojson, frame, shape, _to_utm.
  destruct (sh_valid (area_feature a)); cbn [rbind]; [|eauto].
  destruct (sh_valid (ab_feature a)); cbn [rbind]; [|eauto].
  destruct (ab_feature a) as [c|[|c cs]|ext ints|cs|ls|gs] eqn:Hab;
    try (destruct (is_empty _); simpl; eauto; fail).
  - exfalso. apply (Hno c []). reflexivity.
  - exfalso. apply (Hno c cs). reflexivity.
Qed.

Lemma unusable_reference_raises_witness :
  let a := Samples.args Samples.square (LineString []) in
  (forall c cs, coords (ab_feature a) <> Ok (c :: cs))
  /\ exists e, generate_rows_geojson Samples.w0 a = Raise e.
Proof.
  intros a.
  assert (H : forall c cs, coords (ab_feature a) <> Ok (c :: cs))
    by (intros c cs E; discriminate E).
  split; [exact H | exact (unusable_reference_raises Samples.w0 a H)].
Defined.

(** ** The clipped rows *)

Lemma sort_rows_sorted_id (l : list (Z * geom)) :
  Sorted Z.le (map fst l) -> sort_rows l = l.
Proof.
  induction l as [|x l IH]; simpl; intros Hs; [reflexivity|].
  inversion Hs as [|? ? Hs' Hhd]; subst.
  rewrite (IH Hs').
  destruct l as [|y l]; simpl; [reflexivity|].
  inversion Hhd as [|? ? Hxy]; subst.
  apply Z.leb_le in Hxy. now rewrite Hxy.
Qed.

Lemma StronglySorted_app (l1 l2 : list Z) :
  StronglySorted Z.le l1 -> StronglySorted Z.le l2 ->
  (forall x y, In x l1 -> In y l2 -> x <= y) ->
  StronglySorted Z.le (l1 ++ l2).
Proof.
  induction 1 as [|x l1 Hs IH Hx]; simpl; intros H2 Hle; [assumption|].
  constructor.
  - apply IH; [assumption|]. intros a b Ha Hb. apply Hle; [now right | assumption].
  - apply Forall_app. split; [assumption|].
    apply Forall_forall. intros y Hy. apply Hle; [now left | assumption].
Qed.

Lemma StronglySorted_same (i : Z) (l : list Z) :
  Forall (fun k => k = i) l -> StronglySorted Z.le l.
Proof.
  induction 1 as [|k l Hk Hl IH]; constructor; [assumption|].
  subst k. eapply Forall_impl; [|exact Hl]. intros k ->. lia.
Qed.

Section Clipped.

Context {L : GeoLib}.

Lemma clip_rows_sorted (fr : Frame) (line_at : Z -> geom) (n : nat) :
  forall lo s,
    let rows := map (fun i => (i, line_at i))
                    (map (fun k => lo + Z.of_nat k) (seq s n)) in
    StronglySorted Z.le (map fst (flat_map (clip_row fr) rows))
    /\ Forall (fun k => lo + Z.of_nat s <= k)
              (map fst (flat_map (clip_row fr) rows)).
Proof.
  induction n as [|n IH]; intros lo s; simpl; [split; constructor|].
  destruct (IH lo (S s)) as (Hs & Hlow).
  pose proof (clip_row_index fr (lo + Z.of_nat s, line_at (lo + Z.of_nat s)))
    as Hidx. simpl in Hidx.
  assert (Hsame : Forall (fun k => k = lo + Z.of_nat s)
            (map fst (clip_row fr (lo + Z.of_nat s, line_at (lo + Z.of_nat s))))).
  { apply Forall_forall. intros k Hk. apply in_map_iff in Hk.
    destruct Hk as (r & <- & Hr). rewrite Forall_forall in Hidx. now apply Hidx. }
  rewrite map_app. split.
  - apply StronglySorted_app; [now apply (StronglySorted_same (lo + Z.of_nat s)) | assumption |].
    intros x y Hx Hy. rewrite Forall_forall in Hsame, Hlow.
    rewrite (Hsame x Hx). specialize (Hlow y Hy). lia.
  - apply Forall_app. split.
    + eapply Forall_impl; [|exact Hsame]. intros k ->. lia.
    + eapply Forall_impl; [|exact Hlow]. intros k Hk. simpl in Hk. lia.
Qed.

End Clipped.

Lemma clipped_rows_unsorted {L : GeoLib} (a : Args) (fr : Frame) :
  clipped_rows a fr = flat_map (clip_row fr) (row_lines_with_index a fr).
Proof.
  unfold clipped_rows. apply sort_rows_sorted_id.
  apply StronglySorted_Sorted.
  unfold row_lines_with_index, range.
  exact (proj1 (clip_rows_sorted fr
           (fun i => LineString
              [(fl (minx fr - pad fr)%Q, y_pos (reference_y fr) (spacing_m a) i);
               (fl (maxx fr + pad fr)%Q, y_pos (reference_y fr) (spacing_m a) i)])
           _ (- rows_below fr) 0%nat)).
Qed.

(** The candidates are generated in ascending index order and clipping
    keeps the index, so the sort of line 253 never moves a row: the clipped
    rows are the pieces of the candidates in generation order, ascending in
    the row index. *)
Theorem clipped_rows_in_generation_order {L : GeoLib} (a : Args) (fr : Frame) :
  clipped_rows a fr = flat_map (clip_row fr) (row_lines_with_index a fr)
  /\ Sorted Z.le (map fst (clipped_rows a fr)).
Proof.
  split; [apply clipped_rows_unsorted|].
  unfold clipped_rows. apply sort_rows_sorted.
Qed.

Section ReferenceRow.

Context {L : GeoLib}.

Lemma clip_row_zero (fr : Frame) (i : Z) (line g : geom) :
  In (0, g) (clip_row fr (i, line)) -> i = 0 /\ g = ab_rot fr.
Proof.
  intros Hin.
  pose proof (clip_row_index fr (i, line)) as Hidx.
  rewrite Forall_forall in Hidx. specialize (Hidx _ Hin). simpl in Hidx. subst i.
  split; [reflexivity|].
  unfold clip_row in Hin. simpl in Hin. destruct Hin as [E | []].
  now inversion E.
Qed.

Lemma filter_zero_rows (fr : Frame) (line_at : Z -> geom) (indices : list Z) :
  NoDup indices ->
  filter (fun r => fst r =? 0)
    (flat_map (clip_row fr) (map (fun i => (i, line_at i)) indices))
  = if in_dec Z.eq_dec 0 indices then [(0, ab_rot fr)] else [].
Proof.
  induction 1 as [|i indices Hni Hnd IH]; [reflexivity|].
  cbn [map flat_map]. rewrite filter_app, IH.
  destruct (Z.eq_dec i 0) as [-> | Hi].
  - destruct (in_dec Z.eq_dec 0 indices) as [Hin|_]; [contradiction|].
    simpl. destruct (Z.eq_dec 0 0); [reflexivity | contradiction].
  - assert (Hnone : filter (fun r => fst r =? 0) (clip_row fr (i, line_at i)) = []).
    { pose proof (clip_row_index fr (i, line_at i)) as Hidx.
      induction Hidx as [|r l Hr _ IHl]; simpl; [reflexivity|].
      simpl in Hr. rewrite Hr. destruct (Z.eqb_spec i 0); [contradiction|].
      exact IHl. }
    rewrite Hnone. simpl.
    destruct (Z.eq_dec i 0); [contradiction|].
    destruct (in_dec Z.eq_dec 0 indices); reflexivity.
Qed.

End ReferenceRow.

Lemma zero_row_is_reference_line {L : GeoLib} (a : Args) (fr : Frame) (g : geom) :
  In (0, g) (clipped_rows a fr) -> g = ab_rot fr.
Proof.
  intros Hin. rewrite clipped_rows_unsorted in Hin. apply in_flat_map in Hin.
  destruct Hin as ((i & line) & _ & Hin).
  now destruct (clip_row_zero fr i line g Hin).
Qed.

(** The reference row.  A clipped row of index 0 is the aligned reference
    line itself, never a clipped piece of it, and there is exactly one such
    row when 0 lies in [-rows_below, rows_above] and none otherwise.  With
    a positive spacing it is present whenever the reference height lies
    between the lowest and the highest y of the aligned boundary. *)
Theorem reference_row_kept_unclipped {L : GeoLib} (a : Args) (fr : Frame) :
  frame a = Ok fr ->
  (forall g, In (0, g) (clipped_rows a fr) -> g = ab_rot fr)
  /\ filter (fun r => fst r =? 0) (clipped_rows a fr)
     = (if (- rows_below fr <=? 0) && (0 <=? rows_above fr)
        then [(0, ab_rot fr)] else [])
  /\ ((0 < spacing_m a)%Q ->
      (miny fr <= reference_y fr)%Q -> (reference_y fr <= maxy fr)%Q ->
      In (0, ab_rot fr) (clipped_rows a fr)).
Proof.
  intros Hfr.
  pose proof (clipped_rows_unsorted a fr) as Hrows.
  assert (Hfilter : filter (fun r => fst r =? 0) (clipped_rows a fr)
     = (if (- rows_below fr <=? 0) && (0 <=? rows_above fr)
        then [(0, ab_rot fr)] else [])).
  { rewrite Hrows. unfold row_lines_with_index.
    rewrite (filter_zero_rows fr
               (fun i => LineString
                  [(fl (minx fr - pad fr)%Q, y_pos (reference_y fr) (spacing_m a) i);
                   (fl (maxx fr + pad fr)%Q, y_pos (reference_y fr) (spacing_m a) i)])
               _ (NoDup_range _ _)).
    destruct (in_dec Z.eq_dec 0 (range (- rows_below fr) (rows_above fr + 1)))
      as [Hin|Hin]; rewrite In_range in Hin;
      destruct (Z.leb_spec (- rows_below fr) 0), (Z.leb_spec 0 (rows_above fr));
      simpl; try reflexivity; lia. }
  split; [|split; [exact Hfilter|]].
  - intros g Hin. now apply (zero_row_is_reference_line a fr).
  - intros Hs Hlo Hhi.
    destruct (frame_inv a fr Hfr) as (_ & _ & _ & _ & _ & _ & _ & _ & Hb & Ha).
    assert (Hceil : forall d : Q, (0 <= d)%Q ->
              0 <= Qceiling (fl (fl d / spacing_m a))).
    { intros d Hd. rewrite Zle_Qle. change (inject_Z 0) with 0%Q.
      eapply Qle_trans; [|apply Qle_ceiling].
      apply fl_nonneg. apply Qle_shift_div_l; [assumption|].
      rewrite Qmult_0_l. now apply fl_nonneg. }
    assert (Hb0 : 0 <= Qceiling (fl (fl (reference_y fr - miny fr) / spacing_m a)))
      by (apply Hceil; lra).
    assert (Ha0 : 0 <= Qceiling (fl (fl (maxy fr - reference_y fr) / spacing_m a)))
      by (apply Hceil; lra).
    assert (Hin : In (0, ab_rot fr) (filter (fun r => fst r =? 0) (clipped_rows a fr))).
    { rewrite Hfilter.
      destruct (Z.leb_spec (- rows_below fr) 0), (Z.leb_spec 0 (rows_above fr));
        simpl; try lia. now left. }
    apply filter_In in Hin. tauto.
Qed.

Lemma reference_row_kept_unclipped_witness :
  exists fr,
    frame Samples.args_east = Ok fr
    /\ filter (fun r => fst r =? 0) (clipped_rows Samples.args_east fr)
       = [(0, ab_rot fr)]
    /\ In (0, ab_rot fr) (clipped_rows Samples.args_east fr).
Proof.
  destruct (frame Samples.args_east) as [fr|e] eqn:Hfr;
    [|vm_compute in Hfr; discriminate Hfr].
  destruct (reference_row_kept_unclipped Samples.args_east fr Hfr)
    as (_ & Hfilter & Hin).
  exists fr. split; [reflexivity|].
  vm_compute in Hfr. inversion Hfr; subst fr; clear Hfr.
  split.
  - rewrite Hfilter. reflexivity.
  - apply Hin; [reflexivity | vm_compute; discriminate | vm_compute; discriminate].
Defined.

(** ** Metadata and identifiers of the features *)

Section Metadata.

Context {L : GeoLib}.

Lemma emit_row_stamped (w : World) (t : string) (k : nat) (p : RowPlan) :
  Forall (stamped t) (ro_path (emit_row w t k p) :: ro_turns (emit_row w t k p))
  /\ stamped t (ro_dest (emit_row w t k p)).
Proof.
  unfold emit_row, stamped; simpl.
  destruct (rp_turn_a p), (rp_turn_b p); split; repeat constructor.
Qed.

Lemma emit_rows_stamped (w : World) (t : string) (ps : list RowPlan) :
  forall k, Forall (stamped t) (features (assemble (emit_rows w t k ps))).
Proof.
  unfold assemble, path_features, destination_features; simpl.
  induction ps as [|p ps IH]; intros k; [constructor|].
  specialize (IH (k + draws p)%nat). apply Forall_app in IH.
  destruct IH as (IHp & IHd).
  destruct (emit_row_stamped w t k p) as (Hp & Hd).
  cbn [emit_rows flat_map map]. apply Forall_app. split.
  - apply Forall_app. split; assumption.
  - constructor; assumption.
Qed.

Lemma emit_row_ids (w : World) (t : string) (k : nat) (p : RowPlan) :
  Permutation
    (map f_id (ro_path (emit_row w t k p) :: ro_turns (emit_row w t k p))
     ++ [f_id (ro_dest (emit_row w t k p))])
    (map (uuid4 w) (seq k (draws p))).
Proof.
  unfold emit_row, draws; simpl.
  destruct (rp_turn_a p), (rp_turn_b p); simpl.
  - apply perm_skip.
    symmetry. apply (Permutation_cons_append [_; _]).
  - apply perm_skip. apply perm_swap.
  - apply perm_skip. apply perm_swap.
  - reflexivity.
Qed.

Lemma emit_rows_ids (w : World) (t : string) (ps : list RowPlan) :
  forall k,
    Permutation (map f_id (features (assemble (emit_rows w t k ps))))
                (map (uuid4 w) (seq k (list_sum (map draws ps)))).
Proof.
  unfold assemble, path_features, destination_features; simpl.
  induction ps as [|p ps IH]; intros k; [constructor|].
  specialize (IH (k + draws p)%nat).
  change (list_sum (map draws (p :: ps)))
    with (draws p + list_sum (map draws ps))%nat.
  cbn [emit_rows flat_map map].
  rewrite seq_app, !map_app.
  rewrite <- (emit_row_ids w t k p), <- IH, !map_app.
  set (A := map f_id (ro_path (emit_row w t k p) :: ro_turns (emit_row w t k p))).
  set (d := f_id (ro_dest (emit_row w t k p))).
  set (PR := map f_id (flat_map _ _)).
  set (DR := map f_id (map ro_dest _)).
  cbn [map]. fold d.
  rewrite <- !app_assoc. apply Permutation_app_head.
  cbn [app]. symmetry. apply Permutation_middle.
Qed.

End Metadata.

(** All features of one invocation carry the same creation and update
    time, the one clock reading of line 299, version 1, and the fixed
    attributes of their kind: direction "two_way", speed limit "1.2" and
    enabled for paths, empty group fields for destinations. *)
Theorem features_share_one_timestamp {L : GeoLib}
    (w : World) (a : Args) (fc : FeatureCollection) :
  generate_rows_geojson w a = Ok fc ->
  Forall (stamped (utcnow w)) (features fc).
Proof.
  intros H.
  destruct (generate_inv _ _ _ H) as (outs & Hout & ->).
  destruct (row_outputs_inv _ _ _ Hout) as (fr & tp & ps & _ & _ & _ & ->).
  apply emit_rows_stamped.
Qed.

Lemma features_share_one_timestamp_witness :
  exists fc,
    generate_rows_geojson Samples.w0 Samples.args_hook = Ok fc
    /\ Forall (stamped "2024-05-01T06:00:00.000Z") (features fc).
Proof.
  destruct (generate_rows_geojson Samples.w0 Samples.args_hook) as [fc|e] eqn:H;
    [|vm_compute in H; discriminate H].
  exists fc. split; [reflexivity|].
  exact (features_share_one_timestamp Samples.w0 Samples.args_hook fc H).
Defined.

(** Every feature gets an identifier of its own draw: the identifiers of the
    output are, up to order, the first n values drawn from the UUID source,
    n being the number of features; so if the source never repeats a value,
    no two features share an identifier. *)
Theorem feature_ids_are_distinct_draws {L : GeoLib}
    (w : World) (a : Args) (fc : FeatureCollection) :
  generate_rows_geojson w a = Ok fc ->
  Permutation (map f_id (features fc))
              (map (uuid4 w) (seq 0 (List.length (features fc))))
  /\ ((forall i j, uuid4 w i = uuid4 w j -> i = j) ->
      NoDup (map f_id (features fc))).
Proof.
  intros H.
  destruct (generate_inv _ _ _ H) as (outs & Hout & ->).
  destruct (row_outputs_inv _ _ _ Hout) as (fr & tp & ps & _ & _ & _ & ->).
  pose proof (emit_rows_ids w (utcnow w) ps 0) as Hperm.
  assert (Hlen : List.length (features (assemble (emit_rows w (utcnow w) 0 ps)))
                 = list_sum (map draws ps)).
  { apply Permutation_length in Hperm.
    now rewrite !length_map, length_seq in Hperm. }
  rewrite Hlen. split; [exact Hperm|].
  intros Hinj. eapply Permutation_NoDup; [symmetry; exact Hperm|].
  apply NoDup_map_NoDup_ForallPairs; [|apply seq_NoDup].
  intros i j _ _ E. now apply Hinj.
Qed.

Lemma feature_ids_are_distinct_draws_witness :
  exists fc,
    generate_rows_geojson Samples.w0 Samples.args_hook = Ok fc
    /\ Permutation (map f_id (features fc))
                   (map (uuid4 Samples.w0) (seq 0 (List.length (features fc)))).
Proof.
  destruct (generate_rows_geojson Samples.w0 Samples.args_hook) as [fc|e] eqn:H;
    [|vm_compute in H; discriminate H].
  exists fc. split; [reflexivity|].
  exact (proj1 (feature_ids_are_distinct_draws Samples.w0 Samples.args_hook fc H)).
Defined.

Section Counting.

Context {L : GeoLib}.

Lemma emit_rows_length (w : World) (t : string) (ps : list RowPlan) :
  forall k, List.length (features (assemble (emit_rows w t k ps)))
            = list_sum (map draws ps).
Proof.
  intros k. pose proof (emit_rows_ids w t ps k) as Hperm.
  apply Permutation_length in Hperm.
  now rewrite !length_map, length_seq in Hperm.
Qed.

Lemma plan_rows_draws (a : Args) (fr : Frame) (tp : Templates)
    (rows : list (Z * geom)) (ps : list RowPlan) :
  plan_rows a fr tp rows = Ok ps ->
  list_sum (map draws ps)
  = (List.length rows
     * (2 + (if turn_a_attached a tp then 1 else 0)
          + (if turn_b_attached a tp then 1 else 0)))%nat.
Proof.
  intros H. apply plan_rows_Forall2 in H.
  induction H as [|row p rows ps Hp _ IH]; [reflexivity|].
  destruct (row_plan_inv _ _ _ _ _ Hp)
    as (cs & _ & _ & _ & _ & _ & _ & _ & _ & Ha & Hb).
  change (list_sum (map draws (p :: ps)))
    with (draws p + list_sum (map draws ps))%nat.
  cbn [List.length]. rewrite IH. unfold draws. rewrite Ha, Hb. lia.
Qed.

End Counting.

(** The size of the output: every clipped row contributes its path, its
    destination and one feature per attached turn, so the output has
    rows * (2 + turns per row) features. *)
Theorem feature_count {L : GeoLib}
    (w : World) (a : Args) (fr : Frame) (tp : Templates) (fc : FeatureCollection) :
  frame a = Ok fr -> templates a fr = Ok tp ->
  generate_rows_geojson w a = Ok fc ->
  List.length (features fc)
  = (List.length (clipped_rows a fr)
     * (2 + (if turn_a_attached a tp then 1 else 0)
          + (if turn_b_attached a tp then 1 else 0)))%nat
  /\ List.length (filter is_destination (features fc))
     = List.length (clipped_rows a fr).
Proof.
  intros Hfr Htp H.
  destruct (generate_inv _ _ _ H) as (outs & Hout & ->).
  destruct (row_outputs_inv _ _ _ Hout) as (fr' & tp' & ps & Hfr' & Htp' & Hps & ->).
  rewrite Hfr in Hfr'; inversion Hfr'; subst fr'.
  rewrite Htp in Htp'; inversion Htp'; subst tp'.
  split.
  - rewrite emit_rows_length. exact (plan_rows_draws a fr tp _ _ Hps).
  - pose proof (plan_rows_Forall2 _ _ _ _ _ Hps) as HF.
    apply Forall2_length in HF. rewrite HF.
    unfold assemble; simpl. rewrite filter_app, length_app.
    rewrite emit_rows_paths_not_destinations, emit_rows_destinations.
    unfold destination_features. rewrite length_map.
    rewrite <- (emit_rows_plans w (utcnow w) ps 0) at 2. now rewrite length_map.
Qed.

Lemma feature_count_witness :
  exists fr tp fc,
    frame Samples.args_hook = Ok fr
    /\ templates Samples.args_hook fr = Ok tp
    /\ generate_rows_geojson Samples.w0 Samples.args_hook = Ok fc
    /\ List.length (features fc) = 40%nat.
Proof.
  destruct (frame Samples.args_hook) as [fr|e] eqn:Hfr;
    [|vm_compute in Hfr; discriminate Hfr].
  destruct (templates Samples.args_hook fr) as [tp|e] eqn:Htp.
  2: { vm_compute in Hfr. inversion Hfr; subst fr.
       vm_compute in Htp. discriminate Htp. }
  destruct (generate_rows_geojson Samples.w0 Samples.args_hook) as [fc|e] eqn:H;
    [|vm_compute in H; discriminate H].
  destruct (feature_count Samples.w0 Samples.args_hook fr tp fc Hfr Htp H) as (Hn & _).
  exists fr, tp, fc.
  split; [reflexivity|]. split; [exact Htp|]. split; [reflexivity|].
  rewrite Hn. clear Hn H.
  vm_compute in Hfr. inversion Hfr; subst fr; clear Hfr.
  vm_compute in Htp. inversion Htp; subst tp; clear Htp.
  vm_compute. reflexivity.
Defined.

(** ** The destination side *)

Section DestSide.

Context {L : GeoLib}.




End DestSide.



(** ** The reference line in the output *)

(** Row 0 of the output is the reference line itself, never a clipped or
    recomputed line: its path has the coordinates of the input line, each
    carried through the projection, the alignment, the rotation back and the
    unprojection, in the order of the input, or in the opposite order when
    the orientation test of line 309 fires (the x of A and B before the
    alignment against the x of the aligned ends). *)
Theorem reference_row_round_trip {L : GeoLib}
    (w : World) (a : Args) (cs : list Coord) (fc : FeatureCollection) :
  generate_rows_geojson w a = Ok fc -> ab_feature a = LineString cs ->
  exists fr outs,
    frame a = Ok fr
    /\ row_outputs w a = Ok outs
    /\ features fc = flat_map (fun o => ro_path o :: ro_turns o) outs
                     ++ map ro_dest outs
    /\ forall o, In o outs -> ro_index o = 0 ->
         exists c0 c1,
           first_item (map (align_coord fr) cs) = Ok c0
           /\ last_item (map (align_coord fr) cs) = Ok c1
           /\ let reversed :=
                (((ax fr < bx fr) /\ (fst c1 < fst c0))
                 \/ ((bx fr < ax fr) /\ (fst c0 < fst c1)))%Q in
              let there_and_back :=
                map (fun c => back_coord fr (align_coord fr c)) cs in
              (reversed -> f_geometry (ro_path o) = LineString (rev there_and_back))
              /\ (~ reversed -> f_geometry (ro_path o) = LineString there_and_back).
Proof.
  intros Hgen Hab.
  destruct (generate_inv _ _ _ Hgen) as (outs & Hout & ->).
  destruct (row_outputs_inv _ _ _ Hout) as (fr & _ & _ & Hfr & _).
  exists fr, outs.
  split; [exact Hfr|]. split; [exact Hout|]. split; [reflexivity|].
  intros o Hin Hidx.
  destruct (row_outputs_rows _ _ _ _ _ Hfr Hout Hin)
    as (tp & row & k & _ & Hrow & Hplan & Ho).
  destruct (row_plan_inv _ _ _ _ _ Hplan)
    as (cs' & Hi & Hor & _ & _ & _ & _ & Hpath & _).
  unfold ro_index in Hidx. rewrite Hi in Hidx.
  destruct row as [i seg]; simpl in Hidx, Hor; subst i.
  rewrite (zero_row_is_reference_line a fr seg Hrow) in Hor.
  destruct (frame_inv a fr Hfr) as (Hrot & _).
  assert (Hline : ab_rot fr = LineString (map (align_coord fr) cs)).
  { rewrite Hrot, Hab. unfold _rotate, _to_utm, align_coord. simpl.
    now rewrite map_map. }
  rewrite Hline in Hor.
  destruct (orient_spec fr _ _ Hor) as (al & c0 & c1 & Hal & Hc0 & Hc1 & Hrev & Hkeep).
  simpl in Hal. inversion Hal; subst al; clear Hal.
  assert (Hgeo : f_geometry (ro_path o) = rp_path (ro_plan o))
    by (rewrite Ho; reflexivity).
  assert (Hback : forall l, transform_back fr (LineString l)
                            = LineString (map (back_coord fr) l)).
  { intros l. unfold transform_back, _from_utm, _rotate, back_coord. simpl.
    now rewrite map_map. }
  exists c0, c1. split; [assumption|]. split; [assumption|]. split.
  - intros H. rewrite Hgeo, Hpath, (Hrev H), Hback.
    now rewrite map_rev, map_map.
  - intros H. rewrite Hgeo, Hpath, (Hkeep H), Hback.
    now rewrite map_map.
Qed.

Lemma reference_row_round_trip_witness :
  exists fc outs o c0 c1,
    generate_rows_geojson Samples.w0 Samples.args_east = Ok fc
    /\ row_outputs Samples.w0 Samples.args_east = Ok outs
    /\ In o outs /\ ro_index o = 0
    /\ f_geometry (ro_path o) = LineString [c0; c1].
Proof.
  destruct (generate_rows_geojson Samples.w0 Samples.args_east) as [fc|e] eqn:H;
    [|vm_compute in H; discriminate H].
  destruct (reference_row_round_trip Samples.w0 Samples.args_east _ fc H eq_refl)
    as (fr & outs & Hfr & Hout & _ & Hrow).
  destruct (nth_error outs 3) as [o|] eqn:Ho.
  2: { vm_compute in Hout. inversion Hout; subst outs. discriminate Ho. }
  assert (Hin : In o outs) by (eapply nth_error_In; exact Ho).
  assert (Hidx : ro_index o = 0).
  { vm_compute in Hout. inversion Hout; subst outs.
    vm_compute in Ho. inversion Ho; subst o. reflexivity. }
  destruct (Hrow o Hin Hidx) as (c0 & c1 & Hc0 & Hc1 & _ & Hkeep).
  eexists fc, outs, o, _, _.
  split; [reflexivity|]. split; [exact Hout|]. split; [exact Hin|].
  split; [exact Hidx|].
  apply Hkeep.
  vm_compute in Hfr. inversion Hfr; subst fr.
  vm_compute in Hc0, Hc1. inversion Hc0; inversion Hc1; subst c0 c1.
  intros [(H1 & H2) | (H1 & H2)]; vm_compute in H2; vm_compute in H1;
    discriminate.
Defined.

(** ** Prepared turn templates *)



(** ** The preview of [app.py] *)

Section Preview.

Context {L : GeoLib}.

Lemma preview_layer_path (id t : string) (F : Coord -> Coord) (g : geom) :
  preview_layer (path_feature id t (map_geom F g)) = path_layer g.
Proof.
  unfold preview_layer, path_feature, path_layer; simpl.
  destruct g as [c|cs|ext ints|cs|ls|gs]; simpl; try reflexivity.
  now rewrite length_map.
Qed.

Lemma turn_a_geom_shape a fr tp p1 p2 ang g :
  turn_a_geom a fr tp p1 p2 ang = Ok (Some g) ->
  exists t F,
    or_else (custom_m_template tp) (secondary_m_template tp) = Some t
    /\ g = map_geom F t.
Proof.
  unfold turn_a_geom, anchor_point. destruct (String.eqb _ _); [|discriminate].
  destruct (or_else (custom_m_template tp) _) as [t|]; [|discriminate].
  destruct (or_else (custom_anchor_m tp) _) as [an|]; [|discriminate].
  destruct (is_empty t); [discriminate|]. cbn [rbind].
  intros H. inversion H; subst g; clear H.
  unfold _from_utm, _attach_custom_turn, translate, scale, _rotate.
  destruct (flip_start_horizontal a), (flip_start_vertical a);
    rewrite !map_geom_compose; eexists t, _; split; reflexivity.
Qed.

Lemma turn_b_geom_shape a fr tp p1 p2 ang g :
  turn_b_geom a fr tp p1 p2 ang = Ok (Some g) ->
  exists t F,
    or_else (secondary_m_template tp) (custom_m_template tp) = Some t
    /\ g = map_geom F t.
Proof.
  unfold turn_b_geom, anchor_point. destruct (String.eqb _ _); [|discriminate].
  destruct (or_else (secondary_m_template tp) _) as [t|]; [|discriminate].
  destruct (or_else (secondary_anchor_m tp) _) as [an|]; [|discriminate].
  destruct (is_empty t); [discriminate|]. cbn [rbind].
  intros H. inversion H; subst g; clear H.
  unfold _from_utm, _attach_custom_turn, translate, scale, _rotate.
  destruct (flip_end_horizontal a), (flip_end_vertical a);
    rewrite !map_geom_compose; eexists t, _; split; reflexivity.
Qed.

Lemma row_plan_turns a fr tp row p :
  row_plan a fr tp row = Ok p ->
  exists ang,
    turn_a_geom a fr tp (rp_p1 p) (rp_p2 p) ang = Ok (rp_turn_a p)
    /\ turn_b_geom a fr tp (rp_p1 p) (rp_p2 p) ang = Ok (rp_turn_b p).
Proof.
  unfold row_plan. intros H.
  do 10 (apply rbind_ok in H; destruct H as (? & _ & H)).
  apply rbind_ok in H; destruct H as (ta & Hta & H).
  apply rbind_ok in H; destruct H as (tb & Htb & H).
  inversion H; subst p; simpl. eexists. split; eassumption.
Qed.

(** The layers of the turns of one row. *)
Lemma turn_layers a fr tp p1 p2 ang ta tb (w : World) (t : string) (k : nat) :
  turn_a_geom a fr tp p1 p2 ang = Ok ta ->
  turn_b_geom a fr tp p1 p2 ang = Ok tb ->
  map preview_layer
      match ta, tb with
      | Some ga, Some gb =>
          [path_feature (uuid4 w (S (S k))) t ga;
           path_feature (uuid4 w (S (S (S k)))) t gb]
      | Some ga, None => [path_feature (uuid4 w (S (S k))) t ga]
      | None, Some gb => [path_feature (uuid4 w (S (S k))) t gb]
      | None, None => []
      end
  = (if turn_a_attached a tp
     then map path_layer
            (optional (or_else (custom_m_template tp) (secondary_m_template tp)))
     else [])
    ++ (if turn_b_attached a tp
        then map path_layer
               (optional (or_else (secondary_m_template tp) (custom_m_template tp)))
        else []).
Proof.
  intros Hta Htb.
  rewrite <- (turn_a_geom_attached _ _ _ _ _ _ _ Hta).
  rewrite <- (turn_b_geom_attached _ _ _ _ _ _ _ Htb).
  destruct ta as [ga|], tb as [gb|]; simpl;
    repeat match goal with
           | H : turn_a_geom _ _ _ _ _ _ = Ok (Some _) |- _ =>
               destruct (turn_a_geom_shape _ _ _ _ _ _ _ H) as (? & ? & -> & ->);
               clear H
           | H : turn_b_geom _ _ _ _ _ _ = Ok (Some _) |- _ =>
               destruct (turn_b_geom_shape _ _ _ _ _ _ _ H) as (? & ? & -> & ->);
               clear H
           end; simpl; rewrite ?preview_layer_path; reflexivity.
Qed.

End Preview.

(** How the preview of [app.py] sorts the features of the output into its
    layers (lines 104-128).  A destination is drawn on the destination
    layer.  A path goes to the row layer exactly when its geometry is a line
    string of at most three coordinates, and to the turn layer otherwise:
    so a row is drawn as a row when its segment has at most three
    coordinates, and a turn attachment is drawn as a row, not as a turn,
    exactly when its template is a line string of at most three
    coordinates.  The template of the turn at the A end is the primary one,
    or else the secondary one; at the B end the secondary one, or else the
    primary one. *)
Theorem preview_layers_of_output {L : GeoLib}
    (w : World) (a : Args) (fc : FeatureCollection) :
  generate_rows_geojson w a = Ok fc ->
  exists fr tp outs,
    frame a = Ok fr /\ templates a fr = Ok tp
    /\ row_outputs w a = Ok outs
    /\ features fc = flat_map (fun o => ro_path o :: ro_turns o) outs
                     ++ map ro_dest outs
    /\ forall o, In o outs ->
         preview_layer (ro_dest o) = Dests
         /\ preview_layer (ro_path o) = path_layer (rp_seg (ro_plan o))
         /\ map preview_layer (ro_turns o)
            = (if turn_a_attached a tp
               then map path_layer
                      (optional (or_else (custom_m_template tp)
                                         (secondary_m_template tp)))
               else [])
              ++ (if turn_b_attached a tp
                  then map path_layer
                         (optional (or_else (secondary_m_template tp)
                                            (custom_m_template tp)))
                  else []).
Proof.
  intros Hgen.
  destruct (generate_inv _ _ _ Hgen) as (outs & Hout & ->).
  destruct (row_outputs_inv _ _ _ Hout) as (fr & tp & ps & Hfr & Htp & _ & _).
  exists fr, tp, outs.
  split; [exact Hfr|]. split; [exact Htp|]. split; [exact Hout|].
  split; [reflexivity|].
  intros o Hin.
  destruct (row_outputs_rows _ _ _ _ _ Hfr Hout Hin)
    as (tp' & row & k & Htp' & _ & Hplan & Ho).
  rewrite Htp in Htp'; inversion Htp'; subst tp'; clear Htp'.
  destruct (row_plan_inv _ _ _ _ _ Hplan)
    as (cs & _ & _ & _ & _ & _ & _ & Hpath & _).
  destruct (row_plan_turns _ _ _ _ _ Hplan) as (ang & Hta & Htb).
  rewrite Ho. unfold emit_row. cbn [ro_dest ro_path ro_turns ro_plan].
  split; [reflexivity|]. split.
  - rewrite Hpath. unfold transform_back, _from_utm, _rotate.
    rewrite map_geom_compose. apply preview_layer_path.
  - exact (turn_layers _ _ _ _ _ _ _ _ w (utcnow w) k Hta Htb).
Qed.

(** With the three-point hook as template, the turns of a row are drawn on
    the row layer. *)
Lemma preview_layers_of_output_witness :
  exists fc outs o,
    generate_rows_geojson Samples.w0 Samples.args_hook = Ok fc
    /\ row_outputs Samples.w0 Samples.args_hook = Ok outs
    /\ In o outs
    /\ map preview_layer (ro_turns o) = [Rows; Rows]
    /\ preview_layer (ro_dest o) = Dests.
Proof.
  destruct (generate_rows_geojson Samples.w0 Samples.args_hook) as [fc|e] eqn:H;
    [|vm_compute in H; discriminate H].
  destruct (preview_layers_of_output Samples.w0 Samples.args_hook fc H)
    as (fr & tp & outs & Hfr & Htp & Hout & _ & Hlayers).
  destruct outs as [|o outs'] eqn:Houts;
    [vm_compute in Hout; discriminate Hout|].
  assert (Hin : In o (o :: outs')) by (left; reflexivity).
  destruct (Hlayers o Hin) as (Hd & _ & Ht).
  exists fc, (o :: outs'), o.
  split; [reflexivity|]. split; [exact Hout|]. split; [exact Hin|].
  split; [|exact Hd].
  rewrite Ht. clear Ht Hlayers Hd H Hout.
  vm_compute in Hfr. inversion Hfr; subst fr; clear Hfr.
  vm_compute in Htp. inversion Htp; subst tp; clear Htp.
  reflexivity.
Defined.
